(** * Shop manager: the sales-query interpreter and the aggregation queries

    A shallow embedding of the server of the shop manager (the Express
    application with [parseSalesQuery] and the routes [/api/query],
    [/api/products], [/api/sales/weekly], [/api/costs/average]) and of the
    tool handlers of the stdio server ([get_products], [get_weekly_sales],
    [get_avg_cost_by_type], [add_product], [update_product],
    [delete_product]), with its [main] and the [submitQuestion] of the page.

    Conventions of the embedding.
    - A JavaScript string is a [string] whose characters are code units
      below 256 (the Latin-1 range), which [toLowerCase], [trim] and the
      regular expressions of the source keep closed.
    - The numbers of the columns [cost] and [sales_per_day] (SQL [REAL],
      JavaScript numbers) are rationals [Q], which the floating-point
      numbers are. The line items and their totals are computed exactly
      and stated up to [==]; the [SUM] and [AVG] of the statistics are
      those of the engine, taken as parameters.
    - The table [products] is the list of its rows; a [SELECT] is a filter
      followed by a sort, a [GROUP BY] is a running aggregation. *)

From Stdlib Require Import Bool List Arith ZArith NArith QArith Lia.
From Stdlib Require Import Ascii String.
From Stdlib Require Import Sorted Permutation Orders Mergesort.
Import ListNotations.

Local Open Scope string_scope.
Local Open Scope list_scope.

(** ** JavaScript strings *)

Module JsString.

(** WhiteSpace and LineTerminator code units of ECMAScript below 256:
    TAB, LF, VT, FF, CR, SP and NBSP. They are what [trim] removes and
    what [\s] matches. *)
Definition isWhiteSpace (c : ascii) : bool :=
  let n := N_of_ascii c in
  ((9 <=? n) && (n <=? 13) || (n =? 32) || (n =? 160))%N.

(** [String.prototype.toLowerCase] on one code unit: A-Z and the
    upper-case letters of Latin-1 (U+00C0-U+00DE but the sign U+00D7). *)
Definition toLowerCaseChar (c : ascii) : ascii :=
  let n := N_of_ascii c in
  if ((65 <=? n) && (n <=? 90)
      || (192 <=? n) && (n <=? 222) && negb (n =? 215))%N
  then ascii_of_N (n + 32) else c.

Fixpoint toLowerCase (s : string) : string :=
  match s with
  | EmptyString => EmptyString
  | String c s' => String (toLowerCaseChar c) (toLowerCase s')
  end.

Fixpoint trimStart (s : string) : string :=
  match s with
  | EmptyString => EmptyString
  | String c s' => if isWhiteSpace c then trimStart s' else s
  end.

Fixpoint trimEnd (s : string) : string :=
  match s with
  | EmptyString => EmptyString
  | String c s' =>
      match trimEnd s' with
      | EmptyString => if isWhiteSpace c then EmptyString
                       else String c EmptyString
      | r => String c r
      end
  end.

Definition trim (s : string) : string := trimEnd (trimStart s).

(** [s.includes(sub)]: [sub] occurs in [s] at some position. *)
Fixpoint includes (s sub : string) : bool :=
  prefix sub s ||
  match s with
  | EmptyString => false
  | String _ s' => includes s' sub
  end.

(** Truthiness of a string value: every string but the empty one. *)
Definition truthy (s : string) : bool :=
  match s with EmptyString => false | _ => true end.

End JsString.
Import JsString.

(** ** The regular expressions of the source

    The two expressions of [parseSalesQuery] are alternations of sequences
    of literal characters and [\s+]; [replace] with the [g] flag rewrites
    every match found by a left-to-right scan. *)

Module Regex.

Inductive atom : Type :=
| Chr (c : ascii)
| WsPlus.

Definition pattern := list atom.

Fixpoint lit (s : string) : pattern :=
  match s with
  | EmptyString => []
  | String c s' => Chr c :: lit s'
  end.

(** Canonicalize of the [i] flag: the upper-case code unit. The two
    code units below 256 whose upper case lies above (U+00B5, U+00FF)
    and U+00DF (whose upper case is two units) equal nothing but
    themselves, and stay. *)
Definition canonicalize (c : ascii) : ascii :=
  let n := N_of_ascii c in
  if ((97 <=? n) && (n <=? 122)
      || (224 <=? n) && (n <=? 254) && negb (n =? 247))%N
  then ascii_of_N (n - 32) else c.

Definition chr_matches (ignoreCase : bool) (c x : ascii) : bool :=
  if ignoreCase then Ascii.eqb (canonicalize c) (canonicalize x)
  else Ascii.eqb c x.

(** Backtracking match of one sequence at the head of [s]: the number of
    characters consumed. [\s+] is greedy: it takes a further white-space
    character when the rest still matches, and gives it back otherwise. *)
Fixpoint match_seq (ignoreCase : bool) (p : pattern) (s : string)
  {struct p} : option nat :=
  match p with
  | [] => Some O
  | Chr c :: p' =>
      match s with
      | String x s' =>
          if chr_matches ignoreCase c x
          then option_map S (match_seq ignoreCase p' s') else None
      | EmptyString => None
      end
  | WsPlus :: p' =>
      (fix plus (s : string) : option nat :=
         match s with
         | String x s' =>
             if isWhiteSpace x then
               match plus s' with
               | Some n => Some (S n)
               | None => option_map S (match_seq ignoreCase p' s')
               end
             else None
         | EmptyString => None
         end) s
  end.

(** An alternation takes its first alternative that matches. *)
Fixpoint match_alts (ignoreCase : bool) (alts : list pattern) (s : string)
  : option nat :=
  match alts with
  | [] => None
  | p :: alts' =>
      match match_seq ignoreCase p s with
      | Some n => Some n
      | None => match_alts ignoreCase alts' s
      end
  end.

(** [s.replace(/alts/g, repl)]. [skip] counts the characters of the
    current match that are still to be dropped. *)
Fixpoint replace_from (ignoreCase : bool) (alts : list pattern)
  (repl : string) (skip : nat) (s : string) : string :=
  match s with
  | EmptyString =>
      match skip, match_alts ignoreCase alts EmptyString with
      | O, Some _ => repl
      | _, _ => EmptyString
      end
  | String c s' =>
      match skip with
      | S k => replace_from ignoreCase alts repl k s'
      | O =>
          match match_alts ignoreCase alts s with
          | Some (S n) => repl ++ replace_from ignoreCase alts repl n s'
          | Some O => repl ++ String c (replace_from ignoreCase alts repl O s')
          | None => String c (replace_from ignoreCase alts repl O s')
          end
      end
  end.

Definition replace (ignoreCase : bool) (alts : list pattern)
  (repl : string) (s : string) : string :=
  replace_from ignoreCase alts repl O s.

End Regex.

(** ** The query interpreter: [parseSalesQuery] *)

Inductive Period : Type := Day | Week.

(** The [scope] object of the source has at most one of the keys [type],
    [category] and [name]. *)
Inductive Scope : Type :=
| Unscoped
| ByType (type : string)
| ByCategory (category : string)
| ByNamePattern (name : string).

(** What [parseSalesQuery] returns: the object with the key [error], or
    the object with the keys [period] and [scope]. *)
Inductive Interpreted : Type :=
| QueryError (error : string)
| Request (period : Period) (scope : Scope).

(** [String(query || "").toLowerCase().trim()] on a string [query]. *)
Definition normalise (query : string) : string :=
  trim (toLowerCase query).

(** The first half of the body of [parseSalesQuery]: the time window,
    three assignments to [period] in a row. *)
Definition resolvePeriod (q : string) : Period :=
  let period := Day in
  let period :=
    if includes q "week" || includes q "weekly" || includes q "this week"
    then Week else period in
  let period := if includes q "today" then Day else period in
  let period :=
    if includes q "per day" || includes q "daily" then Day else period in
  period.

Definition typeKeywords : list string := ["hair"; "perfume"; "skin"].

Definition categoryMap : list string :=
  [ "shampoo"; "conditioner"; "gucci"; "victoria secret"; "victoria_secret";
    "body lotion"; "body_lotion"; "moisturizer" ].

(** [cat.replace(/\s+/g, "_")] *)
Definition underscored (cat : string) : string :=
  Regex.replace false [[Regex.WsPlus]] "_" cat.

(** The stop-phrase expression
    [/sales|sale|revenue|for|of|what|show|get|how\s+many|how\s+much|today|weekly|this\s+week|per\s+day/gi]. *)
Definition stopPhrases : list Regex.pattern :=
  let lit := Regex.lit in
  let ws := [Regex.WsPlus] in
  [ lit "sales"; lit "sale"; lit "revenue"; lit "for"; lit "of"; lit "what";
    lit "show"; lit "get"; lit "how" ++ ws ++ lit "many";
    lit "how" ++ ws ++ lit "much"; lit "today"; lit "weekly";
    lit "this" ++ ws ++ lit "week"; lit "per" ++ ws ++ lit "day" ].

Definition nameHint (q : string) : string :=
  trim (Regex.replace true stopPhrases "" q).

(** The second half of the body: the product scope, a chain of returns. *)
Definition resolveScope (q : string) : Scope :=
  if includes q "hair" then ByType "hair"
  else if includes q "perfume" then ByType "perfume"
  else if includes q "skin" then ByType "skin"
  else
    match find (fun cat => includes q cat) categoryMap with
    | Some cat => ByCategory (underscored cat)
    | None =>
        if truthy (nameHint q) then ByNamePattern (nameHint q)
        else Unscoped
    end.

Definition parseSalesQuery (query : string) : Interpreted :=
  let q := normalise query in
  if negb (truthy q) then QueryError "Empty query"
  else Request (resolvePeriod q) (resolveScope q).

(** ** The catalog *)

(** A row of the table [products]. The columns [created_at] and
    [updated_at] are read by no query below. *)
Module Product.
Record t : Type := mk {
  id : Z;
  name : string;
  type : string;
  category : string;
  cost : Q;
  sales_per_day : Q
}.
End Product.

(** The rows the stdio server inserts into an empty table, with the
    identifiers the table assigns to them. *)
Definition sampleProducts : list Product.t :=
  [ Product.mk 1 "Shampoo Pro" "hair" "shampoo" 12.99 15;
    Product.mk 2 "Conditioner Plus" "hair" "conditioner" 14.99 12;
    Product.mk 3 "Gucci Bloom" "perfume" "gucci" 89.99 8;
    Product.mk 4 "Victoria Secret Angel" "perfume" "victoria_secret" 65.99 10;
    Product.mk 5 "Body Lotion Smooth" "skin" "body_lotion" 18.99 20;
    Product.mk 6 "Moisturizer Daily" "skin" "moisturizer" 24.99 18 ].

(** An element of [items] in the answer of [/api/query]. *)
Module Item.
Record t : Type := mk {
  id : Z;
  name : string;
  type : string;
  category : string;
  cost : Q;
  sales : Q;
  revenue : Q;
  period : Period
}.
End Item.

(** A row of the weekly-sales [SELECT]. *)
Module WeeklyRow.
Record t : Type := mk {
  id : Z;
  name : string;
  type : string;
  category : string;
  sales_per_day : Q;
  weekly_sales : Q;
  cost : Q;
  weekly_revenue : Q
}.
End WeeklyRow.

(** A row of the [GROUP BY type] query. *)
Module TypeStat.
Record t : Type := mk {
  type : string;
  product_count : nat;
  avg_cost : Q;
  min_cost : Q;
  max_cost : Q;
  total_daily_sales : Q
}.
End TypeStat.

(** ** The SQL fragments the queries use *)

Module Sql.

(** [LIKE] folds the case of the letters A-Z only. *)
Definition nocase (c : ascii) : ascii :=
  let n := N_of_ascii c in
  if ((65 <=? n) && (n <=? 90))%N then ascii_of_N (n + 32) else c.

(** A text as [LIKE] reads it: the characters before its first NUL. *)
Fixpoint c_text (s : string) : string :=
  match s with
  | EmptyString => EmptyString
  | String c s' =>
      if Ascii.eqb c Ascii.zero then EmptyString else String c (c_text s')
  end.

(** The match of two such texts: [%] stands for any run of characters,
    [_] for one. *)
Fixpoint like_text (pat : string) (s : string) {struct pat} : bool :=
  match pat with
  | EmptyString => negb (truthy s)
  | String c pat' =>
      if Ascii.eqb c "%" then
        (fix any (s : string) : bool :=
           like_text pat' s ||
           match s with
           | EmptyString => false
           | String _ s' => any s'
           end) s
      else
        match s with
        | EmptyString => false
        | String x s' =>
            (Ascii.eqb c "_" || Ascii.eqb (nocase c) (nocase x))
            && like_text pat' s'
        end
  end.

(** [s LIKE pat], for a pattern below the length the engine accepts. *)
Definition like (pat : string) (s : string) : bool :=
  like_text (c_text pat) (c_text s).

(** [ORDER BY name]: text compares code unit by code unit. *)
Module NameOrder <: TotalLeBool.
Definition t := Product.t.
Definition leb (p1 p2 : t) : bool :=
  String.leb (Product.name p1) (Product.name p2).
Definition leb_total (p1 p2 : t) : leb p1 p2 = true \/ leb p2 p1 = true :=
  String.leb_total (Product.name p1) (Product.name p2).
End NameOrder.
Module ByName := Sort NameOrder.

(** [ORDER BY weekly_sales DESC] *)
Module WeeklyOrder <: TotalLeBool.
Definition t := WeeklyRow.t.
Definition leb (r1 r2 : t) : bool :=
  Qle_bool (WeeklyRow.weekly_sales r2) (WeeklyRow.weekly_sales r1).
Definition leb_total (r1 r2 : t) : leb r1 r2 = true \/ leb r2 r1 = true :=
  match Qlt_le_dec (WeeklyRow.weekly_sales r1) (WeeklyRow.weekly_sales r2) with
  | left H => or_intror (proj2 (Qle_bool_iff _ _) (Qlt_le_weak _ _ H))
  | right H => or_introl (proj2 (Qle_bool_iff _ _) H)
  end.
End WeeklyOrder.
Module ByWeeklyDesc := Sort WeeklyOrder.

End Sql.

(** ** [POST /api/query] *)

Definition scope_type (scope : Scope) : option string :=
  match scope with ByType v => Some v | _ => None end.
Definition scope_category (scope : Scope) : option string :=
  match scope with ByCategory v => Some v | _ => None end.
Definition scope_name (scope : Scope) : option string :=
  match scope with ByNamePattern v => Some v | _ => None end.

(** A condition is added to the [WHERE] clause when the value is present
    and truthy. *)
Definition when (v : option string) (cond : string -> bool) : bool :=
  match v with
  | Some s => if truthy s then cond s else true
  | None => true
  end.

Definition where_filters (name type category : option string)
  (p : Product.t) : bool :=
  when name (fun s => Sql.like ("%" ++ s ++ "%") (Product.name p))
  && when type (fun s => String.eqb (Product.type p) s)
  && when category (fun s => String.eqb (Product.category p) s).

(** [SELECT ... FROM products WHERE ... ORDER BY name] *)
Definition select_products (db : list Product.t)
  (name type category : option string) : list Product.t :=
  Sql.ByName.sort (filter (where_filters name type category) db).

Definition results (products : list Product.t) (period : Period)
  : list Item.t :=
  map (fun p =>
         let daily := Product.sales_per_day p in
         let weekly := daily * 7 in
         let sales := match period with Week => weekly | Day => daily end in
         let revenue := sales * Product.cost p in
         Item.mk (Product.id p) (Product.name p) (Product.type p)
           (Product.category p) (Product.cost p) sales revenue period)
      products.

Definition totalSales (results : list Item.t) : Q :=
  fold_left (fun s r => s + Item.sales r) results 0.

Definition totalRevenue (results : list Item.t) : Q :=
  fold_left (fun s r => s + Item.revenue r) results 0.

Record Totals : Type := { sales : Q; revenue : Q }.

(** The aggregation of the route: the items and the two totals. *)
Definition computeLineItems (products : list Product.t) (period : Period)
  : list Item.t * Totals :=
  let rs := results products period in
  (rs, {| sales := totalSales rs; revenue := totalRevenue rs |}).

Inductive QueryResponse : Type :=
| BadRequest (error : string)
| QueryOk (period : Period) (scope : Scope) (totals : Totals)
    (items : list Item.t).

Definition apiQuery (db : list Product.t) (question : string)
  : QueryResponse :=
  match parseSalesQuery question with
  | QueryError e => BadRequest e
  | Request period scope =>
      let products :=
        select_products db (scope_name scope) (scope_type scope)
          (scope_category scope) in
      let '(items, totals) := computeLineItems products period in
      QueryOk period scope totals items
  end.

(** ** Listing: [GET /api/products] and the tool [get_products] *)

Definition apiProducts (db : list Product.t)
  (name type category : option string) : list Product.t :=
  select_products db name type category.

Definition get_products (db : list Product.t)
  (name type category : option string) : list Product.t :=
  select_products db name type category.

(** ** Weekly sales: [GET /api/sales/weekly] and the tool [get_weekly_sales] *)

Definition weekly_row (p : Product.t) : WeeklyRow.t :=
  WeeklyRow.mk (Product.id p) (Product.name p) (Product.type p)
    (Product.category p) (Product.sales_per_day p)
    (Product.sales_per_day p * 7) (Product.cost p)
    (Product.sales_per_day p * 7 * Product.cost p).

(** The three queries of the handler. [by_id] is the row test of
    [WHERE id = ?] when [product_id] is given and truthy. *)
Definition weekly_sales_rows (db : list Product.t)
  (by_id : option (Product.t -> bool)) (type : option string)
  : list WeeklyRow.t :=
  match by_id with
  | Some test => map weekly_row (filter test db)
  | None =>
      match type with
      | Some ty =>
          if truthy ty then
            Sql.ByWeeklyDesc.sort
              (map weekly_row
                 (filter (fun p => String.eqb (Product.type p) ty) db))
          else Sql.ByWeeklyDesc.sort (map weekly_row db)
      | None => Sql.ByWeeklyDesc.sort (map weekly_row db)
      end
  end.

Record WeeklyResponse : Type := {
  total_weekly_sales : Q;
  total_weekly_revenue : Q;
  products : list WeeklyRow.t
}.

Definition weekly_response (sales : list WeeklyRow.t) : WeeklyResponse :=
  {| total_weekly_sales :=
       fold_left (fun sum item => sum + WeeklyRow.weekly_sales item) sales 0;
     total_weekly_revenue :=
       fold_left (fun sum item => sum + WeeklyRow.weekly_revenue item) sales 0;
     products := sales |}.

Section WeeklySales.

(** The integer SQLite reads in a text parameter that it compares with
    the INTEGER column [id]; [None] when the text is no number. *)
Variable integer_of_text : string -> option Z.

(** The route: [product_id] and [type] are strings of the query string. *)
Definition apiSalesWeekly (db : list Product.t)
  (product_id type : option string) : WeeklyResponse :=
  let by_id :=
    match product_id with
    | Some s =>
        if truthy s then
          Some (fun p =>
                  match integer_of_text s with
                  | Some n => Z.eqb (Product.id p) n
                  | None => false
                  end)
        else None
    | None => None
    end in
  weekly_response (weekly_sales_rows db by_id type).

End WeeklySales.

(** The tool: [product_id] is a number, falsy when it is 0. *)
Definition get_weekly_sales (db : list Product.t)
  (product_id : option Z) (type : option string) : WeeklyResponse :=
  let by_id :=
    match product_id with
    | Some n =>
        if Z.eqb n 0 then None else Some (fun p => Z.eqb (Product.id p) n)
    | None => None
    end in
  weekly_response (weekly_sales_rows db by_id type).

(** ** Statistics by type: [GET /api/costs/average] and the tool
    [get_avg_cost_by_type]

    [SELECT type, COUNT( * ), AVG(cost), MIN(cost), MAX(cost),
     SUM(sales_per_day) FROM products GROUP BY type ORDER BY type]:
    the rows are read one by one; each goes to the group of its type, and
    the groups are kept in the order of their keys. [COUNT], [MIN] and
    [MAX] are exact on the numbers of the table. [SUM] and [AVG] are the
    engine's: they work in floating point on the values of the group, and
    are parameters here, applied to the values in the order of the rows. *)

Module Aggregate.

(** What the engine has seen of one group. *)
Record acc : Type := mk {
  count : nat;
  costs : list Q;
  min_cost : Q;
  max_cost : Q;
  sales : list Q
}.

Definition init (p : Product.t) : acc :=
  mk 1 [Product.cost p] (Product.cost p) (Product.cost p)
    [Product.sales_per_day p].

Definition step (a : acc) (p : Product.t) : acc :=
  mk (S (count a))
    (costs a ++ [Product.cost p])
    (if Qle_bool (Product.cost p) (min_cost a)
     then Product.cost p else min_cost a)
    (if Qle_bool (max_cost a) (Product.cost p)
     then Product.cost p else max_cost a)
    (sales a ++ [Product.sales_per_day p]).

(** The groups, an association list in ascending order of the keys. *)
Fixpoint upsert (p : Product.t) (groups : list (string * acc))
  : list (string * acc) :=
  match groups with
  | [] => [(Product.type p, init p)]
  | (k, a) :: groups' =>
      match String.compare (Product.type p) k with
      | Eq => (k, step a p) :: groups'
      | Lt => (Product.type p, init p) :: (k, a) :: groups'
      | Gt => (k, a) :: upsert p groups'
      end
  end.

Definition group_by_type (rows : list Product.t) : list (string * acc) :=
  fold_left (fun groups p => upsert p groups) rows [].

Section Engine.

(** [SUM] and [AVG] of the engine, on the values of one group. *)
Variables SUM AVG : list Q -> Q.

Definition finish (g : string * acc) : TypeStat.t :=
  let '(k, a) := g in
  TypeStat.mk k (count a) (AVG (costs a)) (min_cost a) (max_cost a)
    (SUM (sales a)).

End Engine.

End Aggregate.

Section Statistics.

Variables SUM AVG : list Q -> Q.

Definition computeTypeStatistics (db : list Product.t) : list TypeStat.t :=
  map (Aggregate.finish SUM AVG) (Aggregate.group_by_type db).



End Statistics.

(** ** The table and its statements

    The table [products] with the counter that [AUTOINCREMENT] keeps for
    it; the handlers below run one after the other on it. The columns
    [created_at] and [updated_at], which hold the time of the clock, are
    left out of the rows. *)

Module Store.

(** The rows in the order of the table, and [seq]: the largest identifier
    the table ever had. *)
Record t : Type := mk {
  rows : list Product.t;
  seq : Z
}.

Definition empty : t := mk [] 0.

(** [dbGet("SELECT * FROM products WHERE id = ?", [id])] *)
Definition get (s : t) (id : Z) : option Product.t :=
  find (fun p => Z.eqb (Product.id p) id) (rows s).

Definition max_id (rows : list Product.t) : Z :=
  fold_right (fun p m => Z.max (Product.id p) m) 0%Z rows.

(** [INSERT INTO products (name, type, category, cost, sales_per_day)
    VALUES (?, ?, ?, ?, ?)]: the row gets an identifier one above the
    largest the table ever had, and is the last row of the table. *)
Definition insert (s : t) (name type category : string)
  (cost sales_per_day : Q) : t :=
  let id := (Z.max (seq s) (max_id (rows s)) + 1)%Z in
  mk (rows s ++ [Product.mk id name type category cost sales_per_day]) id.

(** [last_insert_rowid()], read right after [insert]. *)
Definition last_insert_rowid (s : t) : Z := seq s.

(** [DELETE FROM products WHERE id = ?] *)
Definition delete (s : t) (id : Z) : t :=
  mk (filter (fun p => negb (Z.eqb (Product.id p) id)) (rows s)) (seq s).

End Store.

(** The fields of a request body or of the arguments of a tool: [None]
    for a field that is [undefined]. *)
Module Fields.
Record t : Type := mk {
  name : option string;
  type : option string;
  category : option string;
  cost : option Q;
  sales_per_day : option Q
}.
End Fields.

(** [UPDATE products SET f1 = ?, ... WHERE id = ?] with one assignment for
    each field that is not [undefined]. *)
Definition assign {A : Type} (v : option A) (old : A) : A :=
  match v with Some new => new | None => old end.

Definition set_fields (updates : Fields.t) (p : Product.t) : Product.t :=
  Product.mk (Product.id p)
    (assign (Fields.name updates) (Product.name p))
    (assign (Fields.type updates) (Product.type p))
    (assign (Fields.category updates) (Product.category p))
    (assign (Fields.cost updates) (Product.cost p))
    (assign (Fields.sales_per_day updates) (Product.sales_per_day p)).

Definition store_update (s : Store.t) (id : Z) (updates : Fields.t)
  : Store.t :=
  Store.mk
    (map (fun p => if Z.eqb (Product.id p) id then set_fields updates p else p)
       (Store.rows s))
    (Store.seq s).

(** [fields.length === 0]: no field of the body is defined. *)
Definition no_fields (updates : Fields.t) : bool :=
  match Fields.name updates, Fields.type updates, Fields.category updates,
        Fields.cost updates, Fields.sales_per_day updates with
  | None, None, None, None, None => true
  | _, _, _, _, _ => false
  end.

(** ** The routes that write: [POST], [PUT] and [DELETE /api/products] *)

(** The answer of a route: the JSON object of a success, with its message
    and product, or a status with an error. *)
Inductive ApiReply : Type :=
| ApiOk (message : string) (product : option Product.t)
| ApiError (status : Z) (error : string).

(** [!v] for a text field of the body. *)
Definition falsy (v : option string) : bool :=
  match v with
  | Some s => negb (truthy s)
  | None => true
  end.

Definition undefined {A : Type} (v : option A) : bool :=
  match v with Some _ => false | None => true end.

Definition apiAddProduct (s : Store.t) (body : Fields.t)
  : Store.t * ApiReply :=
  if falsy (Fields.name body) || falsy (Fields.type body)
     || falsy (Fields.category body) || undefined (Fields.cost body)
     || undefined (Fields.sales_per_day body)
  then
    (s, ApiError 400
          "Missing required fields: name, type, category, cost, sales_per_day")
  else
    let s' :=
      Store.insert s
        (assign (Fields.name body) EmptyString)
        (assign (Fields.type body) EmptyString)
        (assign (Fields.category body) EmptyString)
        (assign (Fields.cost body) 0)
        (assign (Fields.sales_per_day body) 0) in
    let newProduct := Store.get s' (Store.last_insert_rowid s') in
    (s', ApiOk "Product added successfully" newProduct).

Definition apiUpdateProduct (s : Store.t) (id : Z) (updates : Fields.t)
  : Store.t * ApiReply :=
  if no_fields updates then (s, ApiError 400 "No fields to update")
  else
    let s' := store_update s id updates in
    match Store.get s' id with
    | None => (s', ApiError 404 "Product not found")
    | Some updatedProduct =>
        (s', ApiOk "Product updated successfully" (Some updatedProduct))
    end.

Definition apiDeleteProduct (s : Store.t) (id : Z) : Store.t * ApiReply :=
  match Store.get s id with
  | None => (s, ApiError 404 "Product not found")
  | Some product =>
      (Store.delete s id, ApiOk "Product deleted successfully" (Some product))
  end.

(** ** Bodies with [null]

    A field of a JSON body can also be [null]. It is not [undefined], so
    the tests of the routes for a field that is given let it pass; the
    five columns are [NOT NULL], so the statement that would store it
    fails, the route answers 500 with the message of the engine, and the
    table is as before. [apiAddProduct] and [apiUpdateProduct] above are
    these routes on the bodies without [null]. *)

Inductive JsonField (A : Type) : Type :=
| Undefined
| Null
| Given (a : A).

Arguments Undefined {A}.
Arguments Null {A}.
Arguments Given {A} a.

Module Body.
Record t : Type := mk {
  name : JsonField string;
  type : JsonField string;
  category : JsonField string;
  cost : JsonField Q;
  sales_per_day : JsonField Q
}.
End Body.

Definition given {A : Type} (v : JsonField A) : option A :=
  match v with Given a => Some a | _ => None end.

Definition is_undefined {A : Type} (v : JsonField A) : bool :=
  match v with Undefined => true | _ => false end.

Definition is_null {A : Type} (v : JsonField A) : bool :=
  match v with Null => true | _ => false end.

(** [!v] for a text field: [undefined], [null] and the empty string. *)
Definition not_truthy (v : JsonField string) : bool :=
  match v with
  | Given s => negb (truthy s)
  | _ => true
  end.

(** The fields of a body that hold a value. *)
Definition given_fields (body : Body.t) : Fields.t :=
  Fields.mk (given (Body.name body)) (given (Body.type body))
    (given (Body.category body)) (given (Body.cost body))
    (given (Body.sales_per_day body)).

(** The columns a body gives as [null], in the order of the table. *)
Definition null_columns (body : Body.t) : list string :=
  (if is_null (Body.name body) then ["name"] else [])
  ++ (if is_null (Body.type body) then ["type"] else [])
  ++ (if is_null (Body.category body) then ["category"] else [])
  ++ (if is_null (Body.cost body) then ["cost"] else [])
  ++ (if is_null (Body.sales_per_day body) then ["sales_per_day"] else []).

Section EngineErrors.

(** The message of the error the engine raises when a statement gives
    [NULL] to the columns listed. *)
Variable not_null_failed : list string -> string.

Definition apiAddProductBody (s : Store.t) (body : Body.t)
  : Store.t * ApiReply :=
  if not_truthy (Body.name body) || not_truthy (Body.type body)
     || not_truthy (Body.category body) || is_undefined (Body.cost body)
     || is_undefined (Body.sales_per_day body)
  then
    (s, ApiError 400
          "Missing required fields: name, type, category, cost, sales_per_day")
  else
    match null_columns body with
    | [] =>
        let values := given_fields body in
        let s' :=
          Store.insert s
            (assign (Fields.name values) EmptyString)
            (assign (Fields.type values) EmptyString)
            (assign (Fields.category values) EmptyString)
            (assign (Fields.cost values) 0)
            (assign (Fields.sales_per_day values) 0) in
        let newProduct := Store.get s' (Store.last_insert_rowid s') in
        (s', ApiOk "Product added successfully" newProduct)
    | columns => (s, ApiError 500 (not_null_failed columns))
    end.

(** [fields.length === 0]: every field of the body is [undefined]. *)
Definition no_fields_given (body : Body.t) : bool :=
  is_undefined (Body.name body) && is_undefined (Body.type body)
  && is_undefined (Body.category body) && is_undefined (Body.cost body)
  && is_undefined (Body.sales_per_day body).

(** The [UPDATE]: it fails when it would store [NULL] in a row, and there
    is such a row only when a row has the identifier. *)
Definition run_update (s : Store.t) (id : Z) (body : Body.t)
  : option Store.t :=
  match Store.get s id, null_columns body with
  | Some _, _ :: _ => None
  | _, _ => Some (store_update s id (given_fields body))
  end.

Definition apiUpdateProductBody (s : Store.t) (id : Z) (body : Body.t)
  : Store.t * ApiReply :=
  if no_fields_given body then (s, ApiError 400 "No fields to update")
  else
    match run_update s id body with
    | None => (s, ApiError 500 (not_null_failed (null_columns body)))
    | Some s' =>
        match Store.get s' id with
        | None => (s', ApiError 404 "Product not found")
        | Some updatedProduct =>
            (s', ApiOk "Product updated successfully" (Some updatedProduct))
        end
    end.

End EngineErrors.

(** ** The tools that write: [add_product], [update_product],
    [delete_product] *)

Inductive ToolReply : Type :=
| ToolOk (message : string) (product : option Product.t)
| ToolError (error : string).

(** The five arguments are those the schema of the tool requires. *)
Definition add_product (s : Store.t) (name type category : string)
  (cost sales_per_day : Q) : Store.t * ToolReply :=
  let s' := Store.insert s name type category cost sales_per_day in
  let newProduct := Store.get s' (Store.last_insert_rowid s') in
  (s', ToolOk "Product added successfully" newProduct).

Definition update_product (s : Store.t) (id : Z) (updates : Fields.t)
  : Store.t * ToolReply :=
  if no_fields updates then (s, ToolError "No fields to update")
  else
    let s' := store_update s id updates in
    match Store.get s' id with
    | None => (s', ToolError "Product not found")
    | Some updatedProduct =>
        (s', ToolOk "Product updated successfully" (Some updatedProduct))
    end.

Definition delete_product (s : Store.t) (id : Z) : Store.t * ToolReply :=
  match Store.get s id with
  | None => (s, ToolError "Product not found")
  | Some product =>
      (Store.delete s id, ToolOk "Product deleted successfully" (Some product))
  end.

(** ** The start of the stdio server: [main] fills an empty table *)

Definition main (s : Store.t) : Store.t :=
  if Nat.eqb (List.length (Store.rows s)) 0 then
    fold_left
      (fun s product =>
         Store.insert s (Product.name product) (Product.type product)
           (Product.category product) (Product.cost product)
           (Product.sales_per_day product))
      sampleProducts s
  else s.

(** ** The page: [submitQuestion] sends the trimmed question, if any *)

Definition submitQuestion (db : list Product.t) (input : string)
  : option QueryResponse :=
  let question := trim input in
  if negb (truthy question) then None
  else Some (apiQuery db question).

(** ** Vocabulary of the statements *)

(** [blank s]: [s] has white space only. *)
Fixpoint blank (s : string) : bool :=
  match s with
  | EmptyString => true
  | String c s' => isWhiteSpace c && blank s'
  end.

(** [every P s]: each character of [s] passes [P]. *)
Fixpoint every (P : ascii -> bool) (s : string) : bool :=
  match s with
  | EmptyString => true
  | String c s' => P c && every P s'
  end.

(** A keyword that neither starts nor ends with white space. *)
Definition first_solid (s : string) : bool :=
  match s with
  | EmptyString => false
  | String c _ => negb (isWhiteSpace c)
  end.

Fixpoint last_solid (s : string) : bool :=
  match s with
  | EmptyString => false
  | String c EmptyString => negb (isWhiteSpace c)
  | String _ s' => last_solid s'
  end.

Definition keyword (kw : string) : bool :=
  first_solid kw && last_solid kw && String.eqb (toLowerCase kw) kw.

(** The sum of a list of rationals, from the right. *)
Definition Qsum (l : list Q) : Q := fold_right Qplus 0 l.

(** A character that [toLowerCase] leaves as it is. *)
Definition lower_case (c : ascii) : bool := Ascii.eqb (toLowerCaseChar c) c.

(** The words of a text: its maximal runs without white space. *)
Fixpoint words (s : string) : list string :=
  match s with
  | EmptyString => []
  | String c s' =>
      let rest := words s' in
      if isWhiteSpace c then rest
      else if first_solid s' then
        match rest with
        | w :: ws => String c w :: ws
        | [] => [String c EmptyString]
        end
      else String c EmptyString :: rest
  end.

(** The length of the white space a text starts with. *)
Fixpoint leading (s : string) : nat :=
  match s with
  | EmptyString => O
  | String c s' => if isWhiteSpace c then S (leading s') else O
  end.

(** Rows in ascending order of a text key: each row is at most each row
    after it. *)
Definition ascending_by_name {A : Type} (name : A -> string) (rows : list A)
  : Prop :=
  StronglySorted (fun r1 r2 => String.leb (name r1) (name r2) = true) rows.

(** Rows in descending order of a rational key. *)
Definition descending_by {A : Type} (key : A -> Q) (rows : list A) : Prop :=
  StronglySorted (fun r1 r2 => key r2 <= key r1) rows.

(** The weekly sales of an item of [/api/query]: its sales over seven days. *)
Definition item_weekly_sales (r : Item.t) : Q :=
  match Item.period r with
  | Week => Item.sales r
  | Day => Item.sales r * 7
  end.

(** The rows of one type, in the order of the table. *)
Definition rows_of_type (t : string) (db : list Product.t) : list Product.t :=
  filter (fun p => String.eqb (Product.type p) t) db.

(** The aggregates of a group, looked up by its key. *)
Fixpoint lookup (t : string) (groups : list (string * Aggregate.acc))
  : option Aggregate.acc :=
  match groups with
  | [] => None
  | (k, a) :: groups' => if String.eqb k t then Some a else lookup t groups'
  end.

(** The aggregates of a list of rows read one by one; none for no row. *)
Definition aggregate (rows : list Product.t) : option Aggregate.acc :=
  match rows with
  | [] => None
  | p :: rows' => Some (fold_left Aggregate.step rows' (Aggregate.init p))
  end.

(** The keys of the groups. *)
Definition keys (groups : list (string * Aggregate.acc)) : list string :=
  map fst groups.

(** Keys in strictly ascending order. *)
Definition strictly_ascending (keys : list string) : Prop :=
  StronglySorted (fun k1 k2 => String.ltb k1 k2 = true) keys.




(** A character that is no white space. *)
Definition solid (c : ascii) : bool := negb (isWhiteSpace c).

(** A text with the letters A-Z folded, as [LIKE] compares it. *)
Fixpoint nocase_string (s : string) : string :=
  match s with
  | EmptyString => EmptyString
  | String c s' => String (Sql.nocase c) (nocase_string s')
  end.

(** A text without the character NUL. *)
Definition nul_free (s : string) : bool :=
  every (fun c => negb (Ascii.eqb c Ascii.zero)) s.

(** A text without the two wildcards of [LIKE]. *)
Definition wildcard_free (s : string) : bool :=
  every (fun c => negb (Ascii.eqb c "%") && negb (Ascii.eqb c "_")) s.

(** The rows a scope stands for. *)
Definition scope_selects (scope : Scope) (p : Product.t) : bool :=
  match scope with
  | Unscoped => true
  | ByType t => String.eqb (Product.type p) t
  | ByCategory c => String.eqb (Product.category p) c
  | ByNamePattern v => Sql.like ("%" ++ v ++ "%") (Product.name p)
  end.

(** A table as the statements keep it: the identifiers ascend along the
    rows, are positive and none is above the counter. *)
Definition well_formed (s : Store.t) : Prop :=
  StronglySorted (fun p1 p2 => (Product.id p1 < Product.id p2)%Z)
    (Store.rows s)
  /\ Forall (fun p => (0 < Product.id p <= Store.seq s)%Z) (Store.rows s)
  /\ (0 <= Store.seq s)%Z.

(** A request that writes, and the table after one and after several. *)
Inductive Write : Type :=
| AddProduct (body : Fields.t)
| UpdateProduct (id : Z) (updates : Fields.t)
| DeleteProduct (id : Z).

Definition write (s : Store.t) (w : Write) : Store.t :=
  match w with
  | AddProduct body => fst (apiAddProduct s body)
  | UpdateProduct id updates => fst (apiUpdateProduct s id updates)
  | DeleteProduct id => fst (apiDeleteProduct s id)
  end.

Definition writes (s : Store.t) (ws : list Write) : Store.t :=
  fold_left write ws s.

(** The body without [null] that has the fields given. *)
Definition body_of (fields : Fields.t) : Body.t :=
  let field {A : Type} (v : option A) : JsonField A :=
    match v with Some a => Given a | None => Undefined end in
  Body.mk (field (Fields.name fields)) (field (Fields.type fields))
    (field (Fields.category fields)) (field (Fields.cost fields))
    (field (Fields.sales_per_day fields)).

(** The fields of a body in which all five are given. *)
Definition all_fields (name type category : string) (cost sales_per_day : Q)
  : Fields.t :=
  Fields.mk (Some name) (Some type) (Some category) (Some cost)
    (Some sales_per_day).

(** The table of the sample products, as [main] leaves the empty table. *)
Definition sampleStore : Store.t := Store.mk sampleProducts 6.

(** * Properties *)

Example parse_weekly_hair :
  parseSalesQuery "weekly hair sales" = Request Week (ByType "hair").
Proof. reflexivity. Qed.

Example parse_daily_shampoo :
  parseSalesQuery "daily sales for shampoo" = Request Day (ByCategory "shampoo").
Proof. reflexivity. Qed.

Example parse_body_lotion :
  parseSalesQuery "  Revenue of  Body Lotion this week "
  = Request Week (ByCategory "body_lotion").
Proof. reflexivity. Qed.

Example parse_name :
  parseSalesQuery "How   much does Luxury Soap sell today"
  = Request Day (ByNamePattern "does luxury soap sell").
Proof. reflexivity. Qed.

Example query_weekly_sales_for_hair :
  exists items totals,
    apiQuery sampleProducts "weekly sales for hair"
    = QueryOk Week (ByType "hair") totals items
    /\ sales totals == 189
    /\ revenue totals == 15 * 7 * 12.99 + 12 * 7 * 14.99.
Proof.
  eexists. eexists. split; [vm_compute; reflexivity |].
  split; reflexivity.
Qed.

Example weekly_sales_of_hair :
  map WeeklyRow.name
    (products (get_weekly_sales sampleProducts None (Some "hair")))
  = ["Shampoo Pro"; "Conditioner Plus"].
Proof. reflexivity. Qed.

Example like_pattern :
  Sql.like "%LOTION%" "Body Lotion Smooth" = true
  /\ Sql.like "%b_dy%" "Body Lotion Smooth" = true
  /\ Sql.like "%soap%" "Body Lotion Smooth" = false.
Proof. repeat split; reflexivity. Qed.

Example words_of_a_text :
  words "  how much  does it sell " = ["how"; "much"; "does"; "it"; "sell"].
Proof. reflexivity. Qed.

Example parse_unscoped :
  parseSalesQuery "what sales" = Request Day Unscoped.
Proof. reflexivity. Qed.


(** ** Characters and strings *)

Ltac by_cases_on_char c :=
  destruct c as [[] [] [] [] [] [] [] []]; vm_compute; reflexivity.

Lemma toLowerCaseChar_idem (c : ascii) :
  toLowerCaseChar (toLowerCaseChar c) = toLowerCaseChar c.
Proof. by_cases_on_char c. Qed.

Lemma isWhiteSpace_toLowerCaseChar (c : ascii) :
  isWhiteSpace (toLowerCaseChar c) = isWhiteSpace c.
Proof. by_cases_on_char c. Qed.

Lemma toLowerCase_idem (s : string) :
  toLowerCase (toLowerCase s) = toLowerCase s.
Proof.
  induction s as [| c s IH]; simpl; [reflexivity |].
  now rewrite toLowerCaseChar_idem, IH.
Qed.

Lemma blank_toLowerCase (s : string) : blank (toLowerCase s) = blank s.
Proof.
  induction s as [| c s IH]; simpl; [reflexivity |].
  now rewrite isWhiteSpace_toLowerCaseChar, IH.
Qed.

Lemma trimStart_blank (s : string) : blank (trimStart s) = blank s.
Proof.
  induction s as [| c s IH]; simpl; [reflexivity |].
  destruct (isWhiteSpace c) eqn:E; simpl; [exact IH | now rewrite E].
Qed.

Lemma trimEnd_empty_iff (s : string) :
  trimEnd s = EmptyString <-> blank s = true.
Proof.
  induction s as [| c s IH]; simpl; [tauto |].
  destruct (trimEnd s) eqn:Et.
  - destruct (isWhiteSpace c); simpl.
    + split; intros _; [apply IH |]; reflexivity.
    + split; discriminate.
  - split; [discriminate |].
    intros H. apply andb_true_iff in H as [_ H].
    apply IH in H. discriminate.
Qed.

Lemma trim_empty_iff (s : string) : trim s = EmptyString <-> blank s = true.
Proof.
  unfold trim. rewrite trimEnd_empty_iff, trimStart_blank. tauto.
Qed.

Lemma normalise_empty_iff (query : string) :
  normalise query = EmptyString <-> blank query = true.
Proof.
  unfold normalise. rewrite trim_empty_iff, blank_toLowerCase. tauto.
Qed.

Lemma truthy_false_iff (s : string) : truthy s = false <-> s = EmptyString.
Proof. destruct s; simpl; split; congruence. Qed.

Lemma truthy_true_iff (s : string) : truthy s = true <-> s <> EmptyString.
Proof. destruct s; simpl; split; congruence. Qed.

Lemma parseSalesQuery_cases (query : string) :
  (normalise query = EmptyString /\
   parseSalesQuery query = QueryError "Empty query")
  \/ (normalise query <> EmptyString /\
      parseSalesQuery query
      = Request (resolvePeriod (normalise query))
          (resolveScope (normalise query))).
Proof.
  unfold parseSalesQuery.
  destruct (normalise query) eqn:E; simpl.
  - left. split; reflexivity.
  - right. split; [discriminate | reflexivity].
Qed.

(** C3. [parseSalesQuery] answers with the error exactly when the trimmed,
    lower-cased query is empty, which is when the query has white space
    only: the empty string and the string of three spaces give the error,
    and a query with a character that is no white space gives a request. *)
Theorem parseSalesQuery_error_iff_empty :
  parseSalesQuery "" = QueryError "Empty query"
  /\ parseSalesQuery "   " = QueryError "Empty query"
  /\ forall query : string,
      (parseSalesQuery query = QueryError "Empty query"
       <-> normalise query = EmptyString)
      /\ (normalise query = EmptyString <-> blank query = true)
      /\ (blank query = false ->
          exists period scope, parseSalesQuery query = Request period scope)
      /\ (forall e, parseSalesQuery query = QueryError e ->
          e = "Empty query" /\ blank query = true).
Proof.
  split; [reflexivity |]. split; [reflexivity |].
  intros query.
  pose proof (normalise_empty_iff query) as Hb.
  destruct (parseSalesQuery_cases query) as [[Hq Hp] | [Hq Hp]]; rewrite Hp.
  - repeat split; auto; try tauto; try congruence.
    intros Hf. apply Hb in Hq. congruence.
  - repeat split; try tauto; try discriminate.
    intros _. eauto.
Qed.

(** ** Occurrences survive the normalisation of the query *)

Lemma prefix_toLowerCase (kw s : string) :
  prefix kw s = true -> prefix (toLowerCase kw) (toLowerCase s) = true.
Proof.
  revert s. induction kw as [| k kw IH]; intros s H; [now destruct s |].
  destruct s as [| c s]; simpl in *; [discriminate |].
  destruct (ascii_dec k c) as [-> | ?]; [| discriminate].
  destruct (ascii_dec (toLowerCaseChar c) (toLowerCaseChar c)); [| congruence].
  now apply IH.
Qed.

Lemma includes_toLowerCase (kw s : string) :
  includes s kw = true -> includes (toLowerCase s) (toLowerCase kw) = true.
Proof.
  induction s as [| c s IH]; simpl; intros H.
  - rewrite orb_false_r in *. now apply (prefix_toLowerCase kw "").
  - apply orb_true_iff in H as [H | H]; apply orb_true_iff.
    + left. now apply (prefix_toLowerCase kw (String c s)).
    + right. now apply IH.
Qed.

Lemma includes_trimStart (kw s : string) :
  first_solid kw = true ->
  includes s kw = true -> includes (trimStart s) kw = true.
Proof.
  intros Hk. induction s as [| c s IH]; simpl; intros H; [exact H |].
  destruct (isWhiteSpace c) eqn:Ec; [| exact H].
  apply orb_true_iff in H as [H | H]; [| now apply IH].
  destruct kw as [| k kw]; [discriminate |]. simpl in H, Hk.
  destruct (ascii_dec k c) as [-> | ?]; [| discriminate].
  rewrite Ec in Hk. discriminate.
Qed.

Lemma prefix_nonempty (kw s : string) :
  kw <> EmptyString -> prefix kw s = true -> s <> EmptyString.
Proof. destruct kw, s; simpl; congruence. Qed.

Lemma prefix_trimEnd (kw s : string) :
  last_solid kw = true ->
  prefix kw s = true -> prefix kw (trimEnd s) = true.
Proof.
  revert s. induction kw as [| k kw IH]; intros s Hk H; [discriminate |].
  destruct s as [| c s]; [discriminate |].
  cbn [prefix] in H. destruct (ascii_dec k c) as [-> | ?]; [| discriminate].
  cbn [trimEnd].
  destruct kw as [| k' kw].
  - cbn in Hk. apply negb_true_iff in Hk.
    destruct (trimEnd s); [rewrite Hk |]; cbn;
      destruct (ascii_dec c c); congruence.
  - assert (Hs : prefix (String k' kw) (trimEnd s) = true)
      by (apply IH; [exact Hk | exact H]).
    destruct (trimEnd s) as [| c' r]; [discriminate |].
    cbn [prefix]. destruct (ascii_dec c c); [exact Hs | congruence].
Qed.

Lemma includes_nonempty (kw s : string) :
  kw <> EmptyString -> includes s kw = true -> s <> EmptyString.
Proof.
  intros Hk H. destruct s; [| discriminate].
  simpl in H. rewrite orb_false_r in H. destruct kw; [congruence | discriminate].
Qed.

Lemma last_solid_nonempty (kw : string) :
  last_solid kw = true -> kw <> EmptyString.
Proof. destruct kw; simpl; congruence. Qed.

Lemma includes_trimEnd (kw s : string) :
  last_solid kw = true ->
  includes s kw = true -> includes (trimEnd s) kw = true.
Proof.
  intros Hk. pose proof (last_solid_nonempty _ Hk) as Hne.
  induction s as [| c s IH]; intros H; [exact H |].
  cbn [includes] in H. apply orb_true_iff in H as [H | H].
  - apply prefix_trimEnd in H; [| exact Hk].
    destruct (trimEnd (String c s)); cbn [includes]; rewrite H; reflexivity.
  - specialize (IH H).
    pose proof (includes_nonempty _ _ Hne IH) as Hr.
    cbn [trimEnd]. destruct (trimEnd s) as [| c' r]; [congruence |].
    cbn [includes]. cbn [includes] in IH. rewrite IH. apply orb_true_r.
Qed.

(** A keyword that occurs in the query occurs in its normal form. *)
Lemma includes_normalise (kw query : string) :
  keyword kw = true ->
  includes query kw = true -> includes (normalise query) kw = true.
Proof.
  unfold keyword, normalise, trim. intros Hk H.
  apply andb_true_iff in Hk as [Hk Hl].
  apply andb_true_iff in Hk as [Hf Hs].
  apply String.eqb_eq in Hl.
  apply includes_trimEnd; [exact Hs |].
  apply includes_trimStart; [exact Hf |].
  rewrite <- Hl. now apply includes_toLowerCase.
Qed.

(** ** The scope and the period of a request *)

Lemma find_first {A : Type} (f : A -> bool) (earlier later : list A) (x : A) :
  existsb f earlier = false -> f x = true ->
  find f (earlier ++ x :: later) = Some x.
Proof.
  induction earlier as [| y earlier IH]; simpl; intros He Hx.
  - now rewrite Hx.
  - apply orb_false_iff in He as [Hy He]. rewrite Hy. now apply IH.
Qed.

Lemma find_none_existsb {A : Type} (f : A -> bool) (l : list A) :
  existsb f l = false -> find f l = None.
Proof.
  induction l as [| y l IH]; simpl; [reflexivity |].
  intros H. apply orb_false_iff in H as [Hy H]. rewrite Hy. now apply IH.
Qed.

Lemma typeKeywords_are_keywords :
  forallb keyword typeKeywords = true.
Proof. reflexivity. Qed.

Lemma categoryMap_are_keywords :
  forallb keyword categoryMap = true.
Proof. reflexivity. Qed.

Lemma resolveScope_type (q t : string) :
  In t typeKeywords -> includes q t = true ->
  exists t', In t' typeKeywords /\ includes q t' = true
             /\ resolveScope q = ByType t'.
Proof.
  intros Ht Hq. unfold resolveScope.
  destruct (includes q "hair") eqn:E1;
    [exists "hair"; simpl; auto |].
  destruct (includes q "perfume") eqn:E2;
    [exists "perfume"; simpl; auto |].
  destruct (includes q "skin") eqn:E3;
    [exists "skin"; simpl; auto 6 |].
  simpl in Ht. destruct Ht as [<- | [<- | [<- | []]]]; congruence.
Qed.

(** C1. For a query whose trimmed, lower-cased form [q] is not empty, the
    scope is settled by the first rule that applies: the type keywords
    "hair", "perfume", "skin" in this order, then the first category keyword
    of the list that occurs, then the name pattern left by the stop phrases,
    then no scope. A query in which a type keyword and a category keyword
    both occur (in [q], or in the query as it was typed) gets a scope by
    type. *)
Theorem parseSalesQuery_scope_priority (query : string) :
  let q := normalise query in
  q <> EmptyString ->
  exists period scope,
    parseSalesQuery query = Request period scope
    /\ (includes q "hair" = true -> scope = ByType "hair")
    /\ (includes q "hair" = false -> includes q "perfume" = true ->
        scope = ByType "perfume")
    /\ (includes q "hair" = false -> includes q "perfume" = false ->
        includes q "skin" = true -> scope = ByType "skin")
    /\ (existsb (includes q) typeKeywords = false ->
        forall earlier cat later,
          categoryMap = earlier ++ cat :: later ->
          existsb (includes q) earlier = false ->
          includes q cat = true ->
          scope = ByCategory (underscored cat))
    /\ (existsb (includes q) typeKeywords = false ->
        existsb (includes q) categoryMap = false ->
        nameHint q <> EmptyString -> scope = ByNamePattern (nameHint q))
    /\ (existsb (includes q) typeKeywords = false ->
        existsb (includes q) categoryMap = false ->
        nameHint q = EmptyString -> scope = Unscoped)
    /\ (forall t c, In t typeKeywords -> In c categoryMap ->
        includes q t = true -> includes q c = true ->
        exists t', In t' typeKeywords /\ includes q t' = true
                   /\ scope = ByType t')
    /\ (forall t c, In t typeKeywords -> In c categoryMap ->
        includes query t = true -> includes query c = true ->
        exists t', In t' typeKeywords /\ scope = ByType t').
Proof.
  intros q Hq.
  destruct (parseSalesQuery_cases query) as [[Hq' _] | [_ Hp]];
    [contradiction |].
  fold q in Hp. exists (resolvePeriod q), (resolveScope q).
  split; [exact Hp |].
  assert (Hty : existsb (includes q) typeKeywords = false ->
                includes q "hair" = false /\ includes q "perfume" = false
                /\ includes q "skin" = false).
  { simpl. rewrite !orb_false_iff. tauto. }
  repeat split.
  - intros H. unfold resolveScope. now rewrite H.
  - intros H1 H2. unfold resolveScope. now rewrite H1, H2.
  - intros H1 H2 H3. unfold resolveScope. now rewrite H1, H2, H3.
  - intros Ht earlier cat later Hsplit He Hc.
    destruct (Hty Ht) as (H1 & H2 & H3).
    unfold resolveScope. rewrite H1, H2, H3, Hsplit.
    now rewrite (find_first (fun c => includes q c) earlier later cat He Hc).
  - intros Ht Hc Hn. destruct (Hty Ht) as (H1 & H2 & H3).
    unfold resolveScope. rewrite H1, H2, H3, (find_none_existsb (fun c => includes q c) _ Hc).
    apply truthy_true_iff in Hn. now rewrite Hn.
  - intros Ht Hc Hn. destruct (Hty Ht) as (H1 & H2 & H3).
    unfold resolveScope. rewrite H1, H2, H3, (find_none_existsb (fun c => includes q c) _ Hc).
    now rewrite Hn.
  - intros t c Ht _ Hqt _. now apply (resolveScope_type q t).
  - intros t c Ht _ Hqt _.
    assert (Hk : keyword t = true).
    { pose proof typeKeywords_are_keywords as H.
      rewrite forallb_forall in H. now apply H. }
    destruct (resolveScope_type q t Ht (includes_normalise _ _ Hk Hqt))
      as (t' & H1 & _ & H3).
    eauto.
Qed.

(** C2. For a query whose trimmed, lower-cased form [q] is not empty, the
    period is Day by default, Week when "week", "weekly" or "this week"
    occurs, and Day again when "today", "per day" or "daily" occurs: with
    "week" and "today", or "week" and "daily", the period is Day; with
    "week" and none of the three phrases that force Day it is Week. *)
Theorem parseSalesQuery_period_rules (query : string) :
  let q := normalise query in
  let week :=
    includes q "week" || includes q "weekly" || includes q "this week" in
  let day := includes q "today" || includes q "per day" || includes q "daily" in
  q <> EmptyString ->
  exists period scope,
    parseSalesQuery query = Request period scope
    /\ (day = true -> period = Day)
    /\ (week = true -> day = false -> period = Week)
    /\ (week = false -> period = Day)
    /\ (includes q "week" = true -> includes q "today" = true ->
        period = Day)
    /\ (includes q "week" = true -> includes q "daily" = true ->
        period = Day)
    /\ (includes q "week" = true -> day = false -> period = Week)
    /\ (includes query "week" = true -> includes query "today" = true ->
        period = Day)
    /\ (includes query "week" = true -> includes query "daily" = true ->
        period = Day)
    /\ (includes query "week" = true -> day = false -> period = Week).
Proof.
  intros q week day Hq.
  destruct (parseSalesQuery_cases query) as [[Hq' _] | [_ Hp]];
    [contradiction |].
  fold q in Hp. exists (resolvePeriod q), (resolveScope q).
  split; [exact Hp |].
  assert (Hday : day = true -> resolvePeriod q = Day).
  { unfold day, resolvePeriod.
    destruct (includes q "today"), (includes q "per day"),
      (includes q "daily"); simpl; intros H; try reflexivity; discriminate. }
  assert (Hweek : week = true -> day = false -> resolvePeriod q = Week).
  { unfold week, day, resolvePeriod. intros Hw Hd. rewrite Hw.
    apply orb_false_iff in Hd as [Hd1 Hd2]. apply orb_false_iff in Hd1 as [Hd0 Hd1].
    now rewrite Hd0, Hd1, Hd2. }
  assert (Hnow : week = false -> resolvePeriod q = Day).
  { unfold week, resolvePeriod. intros Hw. rewrite Hw.
    destruct (includes q "today"), (includes q "per day"),
      (includes q "daily"); reflexivity. }
  assert (Hin : forall kw, keyword kw = true ->
                includes query kw = true -> includes q kw = true)
    by (intros kw Hk H; now apply includes_normalise).
  repeat split; auto.
  - intros _ H. apply Hday. unfold day. now rewrite H.
  - intros _ H. apply Hday. unfold day. rewrite H. now rewrite !orb_true_r.
  - intros H Hd. apply Hweek; [| exact Hd]. unfold week. now rewrite H.
  - intros _ H. apply Hday. unfold day. now rewrite (Hin "today" eq_refl H).
  - intros _ H. apply Hday. unfold day. rewrite (Hin "daily" eq_refl H).
    now rewrite !orb_true_r.
  - intros H Hd. apply Hweek; [| exact Hd]. unfold week.
    now rewrite (Hin "week" eq_refl H).
Qed.

(** ** What the rewriting of a string keeps *)

Lemma every_append (P : ascii -> bool) (a b : string) :
  every P (a ++ b) = every P a && every P b.
Proof.
  induction a as [| c a IH]; simpl; [reflexivity |].
  now rewrite IH, andb_assoc.
Qed.

Lemma every_trimStart (P : ascii -> bool) (s : string) :
  every P s = true -> every P (trimStart s) = true.
Proof.
  induction s as [| c s IH]; simpl; [easy |].
  intros H. destruct (isWhiteSpace c); [| exact H].
  apply andb_true_iff in H as [_ H]. now apply IH.
Qed.

Lemma every_trimEnd (P : ascii -> bool) (s : string) :
  every P s = true -> every P (trimEnd s) = true.
Proof.
  induction s as [| c s IH]; simpl; [easy |].
  intros H. apply andb_true_iff in H as [Hc H]. specialize (IH H).
  destruct (trimEnd s) as [| c' r].
  - destruct (isWhiteSpace c); simpl; [reflexivity | now rewrite Hc].
  - cbn [every]. cbn [every] in IH. now rewrite Hc, IH.
Qed.

Lemma every_replace_from (P : ascii -> bool) (ic : bool)
  (alts : list Regex.pattern) (repl : string) (s : string) :
  every P repl = true -> every P s = true ->
  forall skip, every P (Regex.replace_from ic alts repl skip s) = true.
Proof.
  intros Hr. induction s as [| c s IH]; intros Hs skip.
  - simpl. destruct skip; [| reflexivity].
    now destruct (Regex.match_alts ic alts "").
  - cbn [every] in Hs. apply andb_true_iff in Hs as [Hc Hs].
    specialize (IH Hs). cbn [Regex.replace_from].
    destruct skip as [| k]; [| apply IH].
    destruct (Regex.match_alts ic alts (String c s)) as [[| n] |].
    + rewrite every_append. cbn [every]. now rewrite Hr, Hc, IH.
    + rewrite every_append. now rewrite Hr, IH.
    + cbn [every]. now rewrite Hc, IH.
Qed.

Lemma every_lower_case_toLowerCase (s : string) :
  every lower_case (toLowerCase s) = true.
Proof.
  induction s as [| c s IH]; simpl; [reflexivity |].
  unfold lower_case at 1. now rewrite toLowerCaseChar_idem, Ascii.eqb_refl.
Qed.

Lemma every_lower_case_fixed (s : string) :
  every lower_case s = true -> toLowerCase s = s.
Proof.
  induction s as [| c s IH]; simpl; [reflexivity |].
  intros H. apply andb_true_iff in H as [Hc H].
  apply Ascii.eqb_eq in Hc. now rewrite Hc, IH.
Qed.

Lemma every_lower_case_normalise (query : string) :
  every lower_case (normalise query) = true.
Proof.
  unfold normalise, trim.
  apply every_trimEnd, every_trimStart, every_lower_case_toLowerCase.
Qed.

Lemma every_lower_case_nameHint (q : string) :
  every lower_case q = true -> every lower_case (nameHint q) = true.
Proof.
  intros H. unfold nameHint, trim, Regex.replace.
  apply every_trimEnd, every_trimStart, every_replace_from;
    [reflexivity | exact H].
Qed.

Lemma normalise_toLowerCase (query : string) :
  normalise (toLowerCase query) = normalise query.
Proof. unfold normalise. now rewrite toLowerCase_idem. Qed.

(** C9. [parseSalesQuery] does not see the case of its input: a query
    and its lower-cased form have the same answer, and a name pattern in
    the answer has lower-case characters only. *)
Theorem parseSalesQuery_case_insensitive (query : string) :
  parseSalesQuery query = parseSalesQuery (toLowerCase query)
  /\ forall period v,
      parseSalesQuery query = Request period (ByNamePattern v) ->
      every lower_case v = true /\ toLowerCase v = v.
Proof.
  split.
  - unfold parseSalesQuery. now rewrite normalise_toLowerCase.
  - intros period v H.
    assert (Hv : every lower_case v = true).
    { destruct (parseSalesQuery_cases query) as [[_ Hp] | [_ Hp]];
        rewrite Hp in H; [discriminate |].
      injection H as _ Hs. revert Hs. unfold resolveScope.
      destruct (includes _ "hair"); [discriminate |].
      destruct (includes _ "perfume"); [discriminate |].
      destruct (includes _ "skin"); [discriminate |].
      destruct (find _ categoryMap); [discriminate |].
      destruct (truthy _); [| discriminate].
      intros [= <-].
      apply every_lower_case_nameHint, every_lower_case_normalise. }
    split; [exact Hv | now apply every_lower_case_fixed].
Qed.

(** C10. The stop phrases are removed wherever they occur, inside a word
    too: a text that starts with "for" loses it whatever follows, and the
    query "forest", in which no type or category keyword occurs, has
    period Day and the name pattern "est", which is no word of the query. *)
Theorem stop_phrase_stripped_inside_word :
  parseSalesQuery "forest" = Request Day (ByNamePattern "est")
  /\ includes "forest" "for" = true
  /\ existsb (includes (normalise "forest")) (typeKeywords ++ categoryMap)
     = false
  /\ words "forest" = ["forest"]
  /\ ~ In "est" (words "forest")
  /\ (forall rest : string,
        Regex.replace true stopPhrases "" ("for" ++ rest)
        = Regex.replace true stopPhrases "" rest).
Proof.
  repeat split; try reflexivity.
  simpl. intros [H | []]. discriminate.
Qed.

(** C5 (as the code has it). The query "how much does Luxury Shampoo sell"
    contains the category keyword "shampoo", and the category rule comes
    before the name pattern: the answer has period Day and the scope
    ByCategory "shampoo". The stop phrases would leave the pattern
    "does luxury shampoo sell" ("how much" removed, "does" kept), as they
    do for a query without a keyword. *)
Theorem luxury_shampoo_is_a_category_query :
  parseSalesQuery "how much does Luxury Shampoo sell"
  = Request Day (ByCategory "shampoo")
  /\ includes (normalise "how much does Luxury Shampoo sell") "shampoo" = true
  /\ nameHint (normalise "how much does Luxury Shampoo sell")
     = "does luxury shampoo sell"
  /\ parseSalesQuery "how much does Luxury Soap sell"
     = Request Day (ByNamePattern "does luxury soap sell").
Proof. repeat split; reflexivity. Qed.

(** C5, the claim as stated fails: the answer to that query is no name
    pattern. *)
Lemma luxury_shampoo_not_a_name_pattern :
  ~ exists period v,
      parseSalesQuery "how much does Luxury Shampoo sell"
      = Request period (ByNamePattern v).
Proof. intros (period & v & H). vm_compute in H. discriminate. Qed.

(** ** The category keywords *)

Lemma match_ws_run (s : string) :
  Regex.match_seq false [Regex.WsPlus] s
  = match leading s with O => None | n => Some n end.
Proof.
  induction s as [| c s IH]; [reflexivity |].
  cbn [Regex.match_seq] in *. cbn [leading].
  destruct (isWhiteSpace c); [| reflexivity].
  rewrite IH. now destruct (leading s).
Qed.

Lemma replace_from_leading (ic : bool) (alts : list Regex.pattern)
  (repl s : string) :
  Regex.replace_from ic alts repl (leading s) s
  = Regex.replace_from ic alts repl O (trimStart s).
Proof.
  induction s as [| c s IH]; [reflexivity |].
  cbn [leading trimStart]. destruct (isWhiteSpace c); [| reflexivity].
  cbn [Regex.replace_from]. exact IH.
Qed.

Lemma underscored_solid (c : ascii) (s : string) :
  isWhiteSpace c = false ->
  underscored (String c s) = String c (underscored s).
Proof.
  intros Hc. unfold underscored, Regex.replace.
  cbn [Regex.replace_from Regex.match_alts].
  rewrite match_ws_run. cbn [leading]. now rewrite Hc.
Qed.

Lemma underscored_run (c : ascii) (s : string) :
  isWhiteSpace c = true ->
  underscored (String c s) = ("_" ++ underscored (trimStart s))%string.
Proof.
  intros Hc. unfold underscored, Regex.replace.
  cbn [Regex.replace_from Regex.match_alts].
  rewrite match_ws_run. cbn [leading]. rewrite Hc.
  now rewrite replace_from_leading.
Qed.

Lemma find_split {A : Type} (f : A -> bool) (l : list A) (x : A) :
  find f l = Some x ->
  exists earlier later,
    l = earlier ++ x :: later /\ existsb f earlier = false /\ f x = true.
Proof.
  induction l as [| y l IH]; simpl; [discriminate |].
  destruct (f y) eqn:Hy.
  - intros [= <-]. exists [], l. auto.
  - intros H. destruct (IH H) as (earlier & later & -> & He & Hx).
    exists (y :: earlier), later. simpl. rewrite Hy. auto.
Qed.

Lemma resolveScope_category (q v : string) :
  resolveScope q = ByCategory v ->
  existsb (includes q) typeKeywords = false
  /\ exists earlier cat later,
      categoryMap = earlier ++ cat :: later
      /\ existsb (includes q) earlier = false
      /\ includes q cat = true
      /\ v = underscored cat.
Proof.
  unfold resolveScope.
  destruct (includes q "hair") eqn:E1; [discriminate |].
  destruct (includes q "perfume") eqn:E2; [discriminate |].
  destruct (includes q "skin") eqn:E3; [discriminate |].
  intros H. split; [simpl; now rewrite E1, E2, E3 |].
  destruct (find (fun cat => includes q cat) categoryMap) as [cat |] eqn:F.
  - injection H as <-.
    destruct (find_split _ _ _ F) as (earlier & later & Hs & He & Hc).
    exists earlier, cat, later. auto.
  - destruct (truthy (nameHint q)); discriminate.
Qed.

(** C8 (as the code has it). When no type keyword occurs in the trimmed,
    lower-cased query [q], the category keywords are tried in the order of
    the list and the first that occurs in [q] wins; the scope is
    ByCategory of that keyword with each run of white space replaced by
    one underscore, and a scope by category arises in no other way. With
    "victoria secret" in [q], no type keyword and none of the three earlier
    keywords "shampoo", "conditioner", "gucci", the scope is
    ByCategory "victoria_secret". *)
Theorem parseSalesQuery_category_first_match (query : string) :
  let q := normalise query in
  q <> EmptyString ->
  exists period scope,
    parseSalesQuery query = Request period scope
    /\ (existsb (includes q) typeKeywords = false ->
        forall earlier cat later,
          categoryMap = earlier ++ cat :: later ->
          existsb (includes q) earlier = false ->
          includes q cat = true ->
          scope = ByCategory (underscored cat))
    /\ (forall v, scope = ByCategory v ->
        existsb (includes q) typeKeywords = false
        /\ exists earlier cat later,
            categoryMap = earlier ++ cat :: later
            /\ existsb (includes q) earlier = false
            /\ includes q cat = true
            /\ v = underscored cat)
    /\ (existsb (includes q) typeKeywords = false ->
        existsb (includes q) ["shampoo"; "conditioner"; "gucci"] = false ->
        includes q "victoria secret" = true ->
        scope = ByCategory "victoria_secret")
    /\ map underscored categoryMap
       = [ "shampoo"; "conditioner"; "gucci"; "victoria_secret";
           "victoria_secret"; "body_lotion"; "body_lotion"; "moisturizer" ]
    /\ underscored "" = ""
    /\ (forall c s, isWhiteSpace c = false ->
        underscored (String c s) = String c (underscored s))
    /\ (forall c s, isWhiteSpace c = true ->
        underscored (String c s)
        = ("_" ++ underscored (trimStart s))%string).
Proof.
  intros q Hq.
  destruct (parseSalesQuery_cases query) as [[Hq' _] | [_ Hp]];
    [contradiction |].
  fold q in Hp. exists (resolvePeriod q), (resolveScope q).
  split; [exact Hp |].
  assert (Hfirst : existsb (includes q) typeKeywords = false ->
            forall earlier cat later,
              categoryMap = earlier ++ cat :: later ->
              existsb (includes q) earlier = false ->
              includes q cat = true ->
              resolveScope q = ByCategory (underscored cat)).
  { intros Ht earlier cat later Hsplit He Hc.
    simpl in Ht. rewrite !orb_false_iff in Ht. destruct Ht as (H1 & H2 & H3 & _).
    unfold resolveScope. rewrite H1, H2, H3, Hsplit.
    now rewrite (find_first (fun c => includes q c) earlier later cat He Hc). }
  split; [exact Hfirst |].
  split; [intros v Hv; now apply resolveScope_category |].
  split.
  { intros Ht He Hc.
    apply (Hfirst Ht ["shampoo"; "conditioner"; "gucci"] "victoria secret"
             ["victoria_secret"; "body lotion"; "body_lotion"; "moisturizer"]);
      [reflexivity | exact He | exact Hc]. }
  split; [reflexivity |]. split; [reflexivity |].
  split; [apply underscored_solid | apply underscored_run].
Qed.

(** C8, the example as stated fails: "victoria secret" and no type keyword
    do not give ByCategory "victoria_secret" when an earlier category
    keyword occurs too. *)
Lemma victoria_secret_after_gucci :
  parseSalesQuery "gucci victoria secret" = Request Day (ByCategory "gucci")
  /\ ~ (forall query : string,
          includes (normalise query) "victoria secret" = true ->
          existsb (includes (normalise query)) typeKeywords = false ->
          exists period,
            parseSalesQuery query
            = Request period (ByCategory "victoria_secret")).
Proof.
  split; [reflexivity |].
  intros H.
  destruct (H "gucci victoria secret" eq_refl eq_refl) as [period Hp].
  vm_compute in Hp. discriminate.
Qed.

(** ** Line items and totals *)

Lemma fold_left_Qsum {A : Type} (f : A -> Q) (l : list A) (a : Q) :
  fold_left (fun s r => s + f r) l a == a + Qsum (map f l).
Proof.
  revert a. induction l as [| x l IH]; intros a; simpl.
  - ring.
  - rewrite IH. ring.
Qed.

Lemma Qsum_scale {A : Type} (f : A -> Q) (k : Q) (l : list A) :
  Qsum (map (fun x => f x * k) l) == Qsum (map f l) * k.
Proof.
  induction l as [| x l IH]; simpl.
  - ring.
  - rewrite IH. ring.
Qed.

Lemma totalSales_Qsum (products : list Product.t) (period : Period) :
  totalSales (results products period)
  == Qsum (map (fun p =>
                  match period with
                  | Week => Product.sales_per_day p * 7
                  | Day => Product.sales_per_day p
                  end) products).
Proof.
  unfold totalSales. rewrite fold_left_Qsum.
  unfold results. rewrite map_map. cbn [Item.sales]. ring.
Qed.

Lemma totalRevenue_Qsum (products : list Product.t) (period : Period) :
  totalRevenue (results products period)
  == Qsum (map (fun p =>
                  match period with
                  | Week => Product.sales_per_day p * 7
                  | Day => Product.sales_per_day p
                  end * Product.cost p) products).
Proof.
  unfold totalRevenue. rewrite fold_left_Qsum.
  unfold results. rewrite map_map. cbn [Item.revenue]. ring.
Qed.

(** C4. For every list of products, with exact rational arithmetic: for
    the period Week the total of the sales is the sum of the
    [sales_per_day * 7] (which is 7 times the sum of the [sales_per_day])
    and the total of the revenue is the sum of the
    [sales_per_day * 7 * cost]; for the period Day the total of the sales
    is the sum of the [sales_per_day]. The item of a product has the sales
    [sales_per_day * 7] for Week and [sales_per_day] for Day, and the
    revenue [sales * cost]. *)
Theorem computeLineItems_totals (products : list Product.t) :
  let week := computeLineItems products Week in
  let day := computeLineItems products Day in
  sales (snd week)
  == Qsum (map (fun p => Product.sales_per_day p * 7) products)
  /\ sales (snd week) == Qsum (map Product.sales_per_day products) * 7
  /\ revenue (snd week)
     == Qsum (map (fun p => Product.sales_per_day p * 7 * Product.cost p)
                products)
  /\ sales (snd day) == Qsum (map Product.sales_per_day products)
  /\ revenue (snd day)
     == Qsum (map (fun p => Product.sales_per_day p * Product.cost p)
                products)
  /\ map Item.sales (fst week)
     = map (fun p => Product.sales_per_day p * 7) products
  /\ map Item.sales (fst day) = map Product.sales_per_day products
  /\ (forall period,
        let items := fst (computeLineItems products period) in
        Forall (fun r => Item.revenue r = Item.sales r * Item.cost r) items
        /\ Forall (fun r => Item.period r = period) items
        /\ map Item.id items = map Product.id products
        /\ map Item.cost items = map Product.cost products).
Proof.
  cbn zeta. unfold computeLineItems. cbn [fst snd sales revenue].
  split; [apply (totalSales_Qsum products Week) |].
  split; [rewrite (totalSales_Qsum products Week); apply Qsum_scale |].
  split; [apply (totalRevenue_Qsum products Week) |].
  split; [apply (totalSales_Qsum products Day) |].
  split; [apply (totalRevenue_Qsum products Day) |].
  unfold results. rewrite !map_map. cbn [Item.sales].
  split; [reflexivity |]. split; [reflexivity |].
  intros period. rewrite !map_map. cbn [Item.id Item.cost].
  repeat split; apply Forall_map, Forall_forall; intros p _; reflexivity.
Qed.

(** ** The order of the rows *)

Lemma ascii_compare_refl (c : ascii) : Ascii.compare c c = Eq.
Proof. unfold Ascii.compare. apply N.compare_refl. Qed.

Lemma string_compare_le_trans (a b c : string) :
  String.compare a b <> Gt -> String.compare b c <> Gt ->
  String.compare a c <> Gt.
Proof.
  revert b c. induction a as [| x a IH]; intros [| y b] [| z c]; simpl;
    try congruence.
  destruct (Ascii.compare x y) eqn:Exy; try congruence;
    destruct (Ascii.compare y z) eqn:Eyz; try congruence; intros H1 H2.
  - apply Ascii.compare_eq_iff in Exy, Eyz. subst.
    rewrite ascii_compare_refl. now apply (IH b).
  - apply Ascii.compare_eq_iff in Exy. subst. rewrite Eyz. congruence.
  - apply Ascii.compare_eq_iff in Eyz. subst. rewrite Exy. congruence.
  - unfold Ascii.compare in *. rewrite N.compare_lt_iff in Exy, Eyz.
    assert (Hxz : (N_of_ascii x < N_of_ascii z)%N) by lia.
    apply N.compare_lt_iff in Hxz. rewrite Hxz. congruence.
Qed.

Lemma string_leb_trans (a b c : string) :
  String.leb a b = true -> String.leb b c = true -> String.leb a c = true.
Proof.
  unfold String.leb. intros H1 H2.
  pose proof (string_compare_le_trans a b c) as H.
  destruct (String.compare a b), (String.compare b c), (String.compare a c);
    try reflexivity; try discriminate; exfalso; apply H; congruence.
Qed.

Lemma StronglySorted_map {A B : Type} (R : B -> B -> Prop) (f : A -> B)
  (l : list A) :
  StronglySorted (fun x y => R (f x) (f y)) l -> StronglySorted R (map f l).
Proof.
  induction 1 as [| x l Hs IH Hx]; simpl; constructor; [exact IH |].
  apply Forall_map. exact Hx.
Qed.

Lemma StronglySorted_impl {A : Type} (R R' : A -> A -> Prop) (l : list A) :
  (forall x y, R x y -> R' x y) -> StronglySorted R l -> StronglySorted R' l.
Proof.
  intros HR. induction 1 as [| x l Hs IH Hx]; constructor; [exact IH |].
  eapply Forall_impl; [| exact Hx]. intros y. apply HR.
Qed.

Lemma select_products_ascending (db : list Product.t)
  (name type category : option string) :
  ascending_by_name Product.name (select_products db name type category).
Proof.
  unfold ascending_by_name, select_products.
  apply (Sql.ByName.StronglySorted_sort
           (filter (where_filters name type category) db)).
  intros p1 p2 p3. unfold Sql.NameOrder.leb, is_true. apply string_leb_trans.
Qed.

Lemma select_products_rows (db : list Product.t)
  (name type category : option string) :
  Permutation (filter (where_filters name type category) db)
    (select_products db name type category).
Proof. apply Sql.ByName.Permuted_sort. Qed.

Lemma weekly_sort_descending (rows : list WeeklyRow.t) :
  descending_by WeeklyRow.weekly_sales (Sql.ByWeeklyDesc.sort rows).
Proof.
  unfold descending_by.
  apply StronglySorted_impl
    with (R := fun r1 r2 => is_true (Sql.WeeklyOrder.leb r1 r2)).
  - intros r1 r2. unfold Sql.WeeklyOrder.leb, is_true. apply Qle_bool_imp_le.
  - apply Sql.ByWeeklyDesc.StronglySorted_sort.
    intros r1 r2 r3. unfold Sql.WeeklyOrder.leb, is_true.
    rewrite !Qle_bool_iff. intros H1 H2. eapply Qle_trans; eassumption.
Qed.

Lemma results_names (products : list Product.t) (period : Period) :
  map Item.name (results products period) = map Product.name products.
Proof. unfold results. rewrite map_map. reflexivity. Qed.

Lemma StronglySorted_of_map {A B : Type} (R : B -> B -> Prop) (f : A -> B)
  (l : list A) :
  StronglySorted R (map f l) -> StronglySorted (fun x y => R (f x) (f y)) l.
Proof.
  induction l as [| x l IH]; simpl; intros H; [constructor |].
  inversion H as [| ? ? Hs Hx]; subst. constructor; [now apply IH |].
  rewrite Forall_map in Hx. exact Hx.
Qed.

Lemma results_ascending (products : list Product.t) (period : Period) :
  ascending_by_name Product.name products ->
  ascending_by_name Item.name (results products period).
Proof.
  unfold ascending_by_name. intros H.
  apply (StronglySorted_of_map
           (fun n1 n2 => String.leb n1 n2 = true) Item.name).
  rewrite results_names.
  now apply (StronglySorted_map (fun n1 n2 => String.leb n1 n2 = true)).
Qed.

Lemma apiQuery_items (db : list Product.t) (question : string)
  (period : Period) (scope : Scope) (totals : Totals) (items : list Item.t) :
  apiQuery db question = QueryOk period scope totals items ->
  parseSalesQuery question = Request period scope
  /\ items
     = results
         (select_products db (scope_name scope) (scope_type scope)
            (scope_category scope)) period.
Proof.
  unfold apiQuery.
  destruct (parseSalesQuery question) as [e | period' scope'];
    [discriminate |].
  unfold computeLineItems. intros [= -> -> _ <-]. auto.
Qed.

Lemma weekly_sales_rows_unscoped_by_id (db : list Product.t)
  (type : option string) :
  let rows := weekly_sales_rows db None type in
  descending_by WeeklyRow.weekly_sales rows
  /\ Forall (fun r => WeeklyRow.weekly_sales r
                      = WeeklyRow.sales_per_day r * 7) rows
  /\ (forall ty, type = Some ty -> ty <> EmptyString ->
      Permutation
        (map weekly_row (filter (fun p => String.eqb (Product.type p) ty) db))
        rows).
Proof.
  assert (Hrow : forall l : list Product.t,
             Forall (fun r => WeeklyRow.weekly_sales r
                              = WeeklyRow.sales_per_day r * 7)
               (Sql.ByWeeklyDesc.sort (map weekly_row l))).
  { intros l.
    eapply Permutation_Forall; [apply Sql.ByWeeklyDesc.Permuted_sort |].
    apply Forall_map, Forall_forall. intros p _. reflexivity. }
  cbn zeta. unfold weekly_sales_rows.
  destruct type as [ty |]; [destruct (truthy ty) eqn:Ety |];
    (split; [apply weekly_sort_descending |]); (split; [apply Hrow |]);
    intros ty' [= <-] Hne.
  - apply Sql.ByWeeklyDesc.Permuted_sort.
  - apply truthy_false_iff in Ety. contradiction.
Qed.

(** C6 (as the code has it). The listings of both front ends and the
    answer of the natural-language query, whatever its scope (a scope by
    type too), have their rows in ascending order of the name. The weekly
    sales of both front ends, asked without a product id, have their rows
    in descending order of the weekly sales [sales_per_day * 7]; asked for
    a type, the rows are those of the products of that type. *)
Theorem rows_order (integer_of_text : string -> option Z)
  (db : list Product.t) :
  (forall name type category,
      ascending_by_name Product.name (apiProducts db name type category)
      /\ ascending_by_name Product.name (get_products db name type category))
  /\ (forall question period scope totals items,
        apiQuery db question = QueryOk period scope totals items ->
        ascending_by_name Item.name items)
  /\ (forall product_id type,
        product_id = None \/ product_id = Some EmptyString ->
        let rows := products (apiSalesWeekly integer_of_text db product_id type) in
        descending_by WeeklyRow.weekly_sales rows
        /\ Forall (fun r => WeeklyRow.weekly_sales r
                            = WeeklyRow.sales_per_day r * 7) rows
        /\ (forall ty, type = Some ty -> ty <> EmptyString ->
            Permutation
              (map weekly_row
                 (filter (fun p => String.eqb (Product.type p) ty) db))
              rows))
  /\ (forall product_id type,
        product_id = None \/ product_id = Some 0%Z ->
        let rows := products (get_weekly_sales db product_id type) in
        descending_by WeeklyRow.weekly_sales rows
        /\ Forall (fun r => WeeklyRow.weekly_sales r
                            = WeeklyRow.sales_per_day r * 7) rows
        /\ (forall ty, type = Some ty -> ty <> EmptyString ->
            Permutation
              (map weekly_row
                 (filter (fun p => String.eqb (Product.type p) ty) db))
              rows)).
Proof.
  split; [| split; [| split]].
  - intros name type category.
    split; apply select_products_ascending.
  - intros question period scope totals items H.
    apply apiQuery_items in H as [_ ->].
    apply results_ascending, select_products_ascending.
  - intros product_id type [-> | ->]; cbn zeta;
      unfold apiSalesWeekly, weekly_response; cbn [products truthy];
      apply weekly_sales_rows_unscoped_by_id.
  - intros product_id type [-> | ->]; cbn zeta;
      unfold get_weekly_sales, weekly_response; cbn [products Z.eqb];
      apply weekly_sales_rows_unscoped_by_id.
Qed.

(** C6, the claim as stated fails on the natural-language query: for a
    scope by type the rows come in the order of the names, which on the
    sample products is the ascending order of the weekly sales. *)
Lemma query_rows_not_descending_by_weekly_sales :
  exists totals items,
    apiQuery sampleProducts "weekly sales for hair"
    = QueryOk Week (ByType "hair") totals items
    /\ map Item.name items = ["Conditioner Plus"; "Shampoo Pro"]
    /\ map item_weekly_sales items = [84; 105]
    /\ ~ descending_by item_weekly_sales items.
Proof.
  eexists. eexists. split; [vm_compute; reflexivity |].
  split; [reflexivity |]. split; [reflexivity |].
  intros H. inversion H as [| ? ? _ Hf]. inversion Hf as [| ? ? Hle _].
  vm_compute in Hle. apply Hle. reflexivity.
Qed.

(** ** Statistics by type *)

Lemma string_compare_refl (a : string) : String.compare a a = Eq.
Proof.
  induction a as [| x a IH]; simpl; [reflexivity |].
  now rewrite ascii_compare_refl.
Qed.

Lemma string_compare_gt_lt (a b : string) :
  String.compare a b = Gt <-> String.compare b a = Lt.
Proof.
  rewrite (String.compare_antisym b a).
  destruct (String.compare a b); simpl; split; congruence.
Qed.

Lemma string_ltb_trans (a b c : string) :
  String.ltb a b = true -> String.ltb b c = true -> String.ltb a c = true.
Proof.
  unfold String.ltb. intros H1 H2.
  destruct (String.compare a b) eqn:Eab; try discriminate.
  destruct (String.compare b c) eqn:Ebc; try discriminate.
  destruct (String.compare a c) eqn:Eac; [| reflexivity |].
  - apply String.compare_eq_iff in Eac. subst c.
    apply string_compare_gt_lt in Ebc. congruence.
  - exfalso. apply (string_compare_le_trans a b c); congruence.
Qed.

Lemma string_ltb_neq (a b : string) : String.ltb a b = true -> a <> b.
Proof.
  unfold String.ltb. intros H ->. now rewrite string_compare_refl in H.
Qed.

Module AggregateFacts.
Import Aggregate.

Lemma upsert_keys (p : Product.t) (groups : list (string * acc)) (k : string) :
  In k (keys (upsert p groups)) <-> k = Product.type p \/ In k (keys groups).
Proof.
  induction groups as [| [k' a] groups IH]; simpl.
  - intuition congruence.
  - destruct (String.compare (Product.type p) k') eqn:C; simpl.
    + apply String.compare_eq_iff in C. intuition congruence.
    + intuition congruence.
    + unfold keys in IH. rewrite IH. intuition congruence.
Qed.

Lemma upsert_sorted (p : Product.t) (groups : list (string * acc)) :
  strictly_ascending (keys groups) ->
  strictly_ascending (keys (upsert p groups)).
Proof.
  unfold strictly_ascending.
  induction groups as [| [k a] groups IH]; simpl; intros H.
  - constructor; constructor.
  - inversion H as [| ? ? Hs Hk]; subst.
    destruct (String.compare (Product.type p) k) eqn:C; simpl.
    + exact H.
    + assert (Hlt : String.ltb (Product.type p) k = true)
        by (unfold String.ltb; now rewrite C).
      constructor; [exact H |]. constructor; [exact Hlt |].
      eapply Forall_impl; [| exact Hk].
      intros k' Hk'. cbv beta in *. eapply string_ltb_trans; eassumption.
    + constructor; [now apply IH |].
      apply Forall_forall. intros k' Hin.
      apply (upsert_keys p groups k') in Hin as [-> | Hin].
      * apply string_compare_gt_lt in C. unfold String.ltb. now rewrite C.
      * rewrite Forall_forall in Hk. now apply Hk.
Qed.

Lemma lookup_below (t : string) (groups : list (string * acc)) :
  Forall (fun k => String.ltb t k = true) (keys groups) ->
  lookup t groups = None.
Proof.
  induction groups as [| [k a] groups IH]; simpl; intros H;
    [reflexivity |].
  inversion H as [| ? ? Hk Hr]; subst.
  apply string_ltb_neq in Hk.
  destruct (String.eqb_spec k t); [congruence | now apply IH].
Qed.

Lemma lookup_upsert (p : Product.t) (groups : list (string * acc))
  (t : string) :
  strictly_ascending (keys groups) ->
  lookup t (upsert p groups)
  = if String.eqb (Product.type p) t
    then Some match lookup t groups with
              | Some a => step a p
              | None => init p
              end
    else lookup t groups.
Proof.
  unfold strictly_ascending.
  induction groups as [| [k a] groups IH]; intros H.
  - reflexivity.
  - inversion H as [| ? ? Hs Hk]; subst.
    cbn [upsert].
    destruct (String.compare (Product.type p) k) eqn:C.
    + apply String.compare_eq_iff in C. rewrite C. cbn [lookup].
      now destruct (String.eqb k t).
    + assert (Hlt : String.ltb (Product.type p) k = true)
        by (unfold String.ltb; now rewrite C).
      cbn [lookup].
      destruct (String.eqb_spec (Product.type p) t) as [E | Hne];
        [| reflexivity].
      rewrite <- E.
      destruct (String.eqb_spec k (Product.type p)) as [E' | _].
      * apply string_ltb_neq in Hlt. congruence.
      * rewrite lookup_below; [reflexivity |].
        eapply Forall_impl; [| exact Hk].
        intros k' Hk'. cbv beta in *. eapply string_ltb_trans; eassumption.
    + cbn [lookup]. rewrite (IH Hs).
      destruct (String.eqb_spec k t) as [-> | Hne]; [| reflexivity].
      destruct (String.eqb_spec (Product.type p) t) as [E | _];
        [| reflexivity].
      rewrite E, string_compare_refl in C. discriminate.
Qed.

Lemma lookup_In (groups : list (string * acc)) (k : string) (a : acc) :
  strictly_ascending (keys groups) ->
  (In (k, a) groups <-> lookup k groups = Some a).
Proof.
  unfold strictly_ascending.
  induction groups as [| [k' a'] groups IH]; simpl; intros H.
  - split; [tauto | discriminate].
  - inversion H as [| ? ? Hs Hk]; subst. specialize (IH Hs).
    destruct (String.eqb_spec k' k) as [-> | Hne].
    + split; [| intros [= ->]; now left].
      intros [[= ->] | Hin]; [reflexivity |].
      rewrite (lookup_below k groups Hk) in IH.
      apply IH in Hin. discriminate.
    + rewrite <- IH. split; [| tauto].
      intros [[= -> ->] | Hin]; [congruence | exact Hin].
Qed.

End AggregateFacts.

Module GroupFacts.
Import Aggregate AggregateFacts.

Lemma group_by_type_snoc (l : list Product.t) (p : Product.t) :
  group_by_type (l ++ [p]) = upsert p (group_by_type l).
Proof. unfold group_by_type. now rewrite fold_left_app. Qed.

Lemma group_by_type_sorted (l : list Product.t) :
  strictly_ascending (keys (group_by_type l)).
Proof.
  induction l as [| p l IH] using rev_ind.
  - constructor.
  - rewrite group_by_type_snoc. now apply upsert_sorted.
Qed.

Lemma aggregate_snoc (rows : list Product.t) (p : Product.t) :
  aggregate (rows ++ [p])
  = Some match aggregate rows with
         | Some a => step a p
         | None => init p
         end.
Proof.
  destruct rows as [| r rows]; simpl; [reflexivity |].
  now rewrite fold_left_app.
Qed.

Lemma group_by_type_lookup (l : list Product.t) (t : string) :
  lookup t (group_by_type l) = aggregate (rows_of_type t l).
Proof.
  induction l as [| p l IH] using rev_ind; [reflexivity |].
  rewrite group_by_type_snoc, lookup_upsert by apply group_by_type_sorted.
  unfold rows_of_type in *. rewrite filter_app, IH. cbn [filter].
  destruct (String.eqb (Product.type p) t).
  - now rewrite aggregate_snoc.
  - now rewrite app_nil_r.
Qed.

Lemma step_min (a : acc) (p : Product.t) :
  min_cost (step a p) <= min_cost a
  /\ min_cost (step a p) <= Product.cost p
  /\ (min_cost (step a p) = min_cost a
      \/ min_cost (step a p) = Product.cost p).
Proof.
  cbn [step min_cost].
  destruct (Qle_bool (Product.cost p) (min_cost a)) eqn:E.
  - apply Qle_bool_iff in E. repeat split; auto using Qle_refl.
  - repeat split; auto using Qle_refl.
    apply Qlt_le_weak, Qnot_le_lt. intros H.
    apply Qle_bool_iff in H. congruence.
Qed.

Lemma step_max (a : acc) (p : Product.t) :
  max_cost a <= max_cost (step a p)
  /\ Product.cost p <= max_cost (step a p)
  /\ (max_cost (step a p) = max_cost a
      \/ max_cost (step a p) = Product.cost p).
Proof.
  cbn [step max_cost].
  destruct (Qle_bool (max_cost a) (Product.cost p)) eqn:E.
  - apply Qle_bool_iff in E. repeat split; auto using Qle_refl.
  - repeat split; auto using Qle_refl.
    apply Qlt_le_weak, Qnot_le_lt. intros H.
    apply Qle_bool_iff in H. congruence.
Qed.

Lemma fold_step (ps : list Product.t) (a0 : acc) :
  let a := fold_left step ps a0 in
  count a = (count a0 + List.length ps)%nat
  /\ costs a = costs a0 ++ map Product.cost ps
  /\ sales a = sales a0 ++ map Product.sales_per_day ps
  /\ (min_cost a <= min_cost a0
      /\ Forall (fun r => min_cost a <= Product.cost r) ps
      /\ (min_cost a = min_cost a0 \/ In (min_cost a) (map Product.cost ps)))
  /\ (max_cost a0 <= max_cost a
      /\ Forall (fun r => Product.cost r <= max_cost a) ps
      /\ (max_cost a = max_cost a0 \/ In (max_cost a) (map Product.cost ps))).
Proof.
  revert a0. induction ps as [| p ps IH]; intros a0; cbn zeta.
  - cbn [fold_left map List.length]. rewrite !app_nil_r.
    split; [lia |]. split; [reflexivity |]. split; [reflexivity |].
    repeat split; auto using Qle_refl.
  - cbn [fold_left].
    destruct (IH (step a0 p)) as (Hc & Hs & Hd & (Hm1 & Hm2 & Hm3)
                                  & (HM1 & HM2 & HM3)).
    destruct (step_min a0 p) as (Hn1 & Hn2 & Hn3).
    destruct (step_max a0 p) as (HN1 & HN2 & HN3).
    split; [rewrite Hc; cbn [step count List.length]; lia |].
    split; [rewrite Hs; cbn [step costs map]; now rewrite <- app_assoc |].
    split; [rewrite Hd; cbn [step sales map]; now rewrite <- app_assoc |].
    split; repeat split.
    + eapply Qle_trans; eassumption.
    + constructor; [eapply Qle_trans; eassumption | exact Hm2].
    + cbn [map In].
      destruct Hm3 as [Hm3 | Hm3]; [| auto].
      destruct Hn3 as [Hn3 | Hn3]; rewrite Hm3, Hn3; auto.
    + eapply Qle_trans; eassumption.
    + constructor; [eapply Qle_trans; eassumption | exact HM2].
    + cbn [map In].
      destruct HM3 as [HM3 | HM3]; [| auto].
      destruct HN3 as [HN3 | HN3]; rewrite HM3, HN3; auto.
Qed.

Lemma aggregate_facts (rows : list Product.t) (a : acc) :
  aggregate rows = Some a ->
  rows <> []
  /\ count a = List.length rows
  /\ costs a = map Product.cost rows
  /\ sales a = map Product.sales_per_day rows
  /\ Forall (fun r => min_cost a <= Product.cost r) rows
  /\ In (min_cost a) (map Product.cost rows)
  /\ Forall (fun r => Product.cost r <= max_cost a) rows
  /\ In (max_cost a) (map Product.cost rows).
Proof.
  destruct rows as [| p ps]; [discriminate |].
  intros [= <-].
  destruct (fold_step ps (init p)) as (Hc & Hs & Hd & (Hm1 & Hm2 & Hm3)
                                      & (HM1 & HM2 & HM3)).
  cbn [init count costs sales min_cost max_cost] in *.
  split; [discriminate |].
  split; [rewrite Hc; reflexivity |].
  split; [rewrite Hs; reflexivity |].
  split; [rewrite Hd; reflexivity |].
  split; [constructor; assumption |].
  split; [cbn [map In]; destruct Hm3 as [-> | ?]; auto |].
  split; [constructor; assumption |].
  cbn [map In]; destruct HM3 as [-> | ?]; auto.
Qed.



End GroupFacts.




(** ** Instances of the statements at concrete queries and catalogs *)

Lemma parseSalesQuery_scope_priority_hair_and_gucci :
  normalise "weekly hair sales for gucci" <> EmptyString
  /\ includes "weekly hair sales for gucci" "hair" = true
  /\ includes "weekly hair sales for gucci" "gucci" = true
  /\ exists period t,
      parseSalesQuery "weekly hair sales for gucci" = Request period (ByType t).
Proof.
  split; [discriminate |]. split; [reflexivity |]. split; [reflexivity |].
  destruct (parseSalesQuery_scope_priority "weekly hair sales for gucci")
    as (period & scope & Hp & _ & _ & _ & _ & _ & _ & _ & Hboth);
    [discriminate |].
  destruct (Hboth "hair" "gucci") as (t & _ & ->);
    [simpl; auto | simpl; auto | reflexivity | reflexivity |].
  exists period, t. exact Hp.
Defined.

Lemma parseSalesQuery_period_rules_week_and_today :
  normalise "sales this week and today" <> EmptyString
  /\ includes "sales this week and today" "week" = true
  /\ includes "sales this week and today" "today" = true
  /\ exists scope,
      parseSalesQuery "sales this week and today" = Request Day scope.
Proof.
  split; [discriminate |]. split; [reflexivity |]. split; [reflexivity |].
  destruct (parseSalesQuery_period_rules "sales this week and today")
    as (period & scope & Hp & _ & _ & _ & _ & _ & _ & Hday & _);
    [discriminate |].
  rewrite (Hday eq_refl eq_refl) in Hp.
  exists scope. exact Hp.
Defined.

Lemma parseSalesQuery_error_iff_empty_request :
  blank "weekly hair sales" = false
  /\ exists period scope,
      parseSalesQuery "weekly hair sales" = Request period scope.
Proof.
  split; [reflexivity |].
  destruct parseSalesQuery_error_iff_empty as (_ & _ & H).
  destruct (H "weekly hair sales") as (_ & _ & Hreq & _).
  apply Hreq. reflexivity.
Defined.

Lemma parseSalesQuery_case_insensitive_forest :
  parseSalesQuery "FOREST" = Request Day (ByNamePattern "est")
  /\ every lower_case "est" = true /\ toLowerCase "est" = "est".
Proof.
  split; [reflexivity |].
  destruct (parseSalesQuery_case_insensitive "FOREST") as (_ & H).
  apply (H Day "est"). reflexivity.
Defined.

Lemma parseSalesQuery_category_first_match_victoria :
  normalise "Victoria Secret revenue" <> EmptyString
  /\ existsb (includes (normalise "Victoria Secret revenue")) typeKeywords
     = false
  /\ existsb (includes (normalise "Victoria Secret revenue"))
       ["shampoo"; "conditioner"; "gucci"] = false
  /\ includes (normalise "Victoria Secret revenue") "victoria secret" = true
  /\ exists period,
      parseSalesQuery "Victoria Secret revenue"
      = Request period (ByCategory "victoria_secret").
Proof.
  split; [discriminate |]. split; [reflexivity |]. split; [reflexivity |].
  split; [reflexivity |].
  destruct (parseSalesQuery_category_first_match "Victoria Secret revenue")
    as (period & scope & Hp & _ & _ & Hvs & _); [discriminate |].
  rewrite (Hvs eq_refl eq_refl eq_refl) in Hp.
  exists period. exact Hp.
Defined.

Lemma rows_order_sampleProducts :
  (exists totals items,
      apiQuery sampleProducts "weekly sales for hair"
      = QueryOk Week (ByType "hair") totals items
      /\ ascending_by_name Item.name items)
  /\ descending_by WeeklyRow.weekly_sales
       (products (get_weekly_sales sampleProducts None (Some "hair")))
  /\ descending_by WeeklyRow.weekly_sales
       (products
          (apiSalesWeekly (fun _ => None) sampleProducts None (Some "hair"))).
Proof.
  destruct (rows_order (fun _ => None) sampleProducts)
    as (_ & Hq & Hrest & Htool).
  split; [| split].
  - eexists. eexists. split; [vm_compute; reflexivity |].
    eapply (Hq "weekly sales for hair"). vm_compute. reflexivity.
  - apply (Htool None (Some "hair")). left. reflexivity.
  - apply (Hrest None (Some "hair")). left. reflexivity.
Defined.


(** * Further properties of the code *)

(** ** The margins and the case of a query *)

Lemma trimStart_toLowerCase (s : string) :
  trimStart (toLowerCase s) = toLowerCase (trimStart s).
Proof.
  induction s as [| c s IH]; simpl; [reflexivity |].
  rewrite isWhiteSpace_toLowerCaseChar.
  now destruct (isWhiteSpace c).
Qed.

Lemma trimEnd_toLowerCase (s : string) :
  trimEnd (toLowerCase s) = toLowerCase (trimEnd s).
Proof.
  induction s as [| c s IH]; simpl; [reflexivity |].
  rewrite IH, isWhiteSpace_toLowerCaseChar.
  destruct (trimEnd s); simpl; [| reflexivity].
  now destruct (isWhiteSpace c).
Qed.

Lemma first_solid_trimStart (s : string) :
  first_solid s = true -> trimStart s = s.
Proof.
  destruct s as [| c s]; simpl; [reflexivity |].
  intros H. apply negb_true_iff in H. now rewrite H.
Qed.

Lemma last_solid_trimEnd (s : string) :
  last_solid s = true -> trimEnd s = s.
Proof.
  induction s as [| c s IH]; [reflexivity |].
  cbn [last_solid trimEnd]. destruct s as [| c' s'].
  - intros H. apply negb_true_iff in H. cbn. now rewrite H.
  - intros H. now rewrite (IH H).
Qed.

Lemma trimStart_ends (s : string) :
  trimStart s = EmptyString \/ first_solid (trimStart s) = true.
Proof.
  induction s as [| c s IH]; simpl; [now left |].
  destruct (isWhiteSpace c) eqn:E; [exact IH |].
  right. simpl. now rewrite E.
Qed.

Lemma trimEnd_ends (s : string) :
  trimEnd s = EmptyString \/ last_solid (trimEnd s) = true.
Proof.
  induction s as [| c s IH]; simpl; [now left |].
  destruct (trimEnd s) as [| c' r] eqn:Er.
  - destruct (isWhiteSpace c) eqn:E; [now left |].
    right. simpl. now rewrite E.
  - right. destruct IH as [IH | IH]; [discriminate | exact IH].
Qed.

Lemma first_solid_trimEnd (s : string) :
  first_solid s = true -> first_solid (trimEnd s) = true.
Proof.
  destruct s as [| c s]; simpl; [easy |].
  intros H. destruct (trimEnd s); [| exact H].
  apply negb_true_iff in H. rewrite H. simpl. now rewrite H.
Qed.

Lemma trim_ends (s : string) :
  trim s = EmptyString
  \/ (first_solid (trim s) = true /\ last_solid (trim s) = true).
Proof.
  unfold trim. destruct (trimEnd_ends (trimStart s)) as [H | H];
    [now left | right].
  split; [| exact H].
  destruct (trimStart_ends s) as [E | E].
  - rewrite E in H. discriminate.
  - now apply first_solid_trimEnd.
Qed.

Lemma trim_idem (s : string) : trim (trim s) = trim s.
Proof.
  destruct (trim_ends s) as [E | [Hf Hl]].
  - rewrite E. reflexivity.
  - unfold trim at 1. now rewrite (first_solid_trimStart _ Hf), last_solid_trimEnd.
Qed.

Lemma normalise_trim (query : string) :
  normalise (trim query) = normalise query.
Proof.
  unfold normalise, trim.
  rewrite <- trimEnd_toLowerCase, <- trimStart_toLowerCase.
  apply (trim_idem (toLowerCase query)).
Qed.

Lemma normalise_idem (query : string) :
  normalise (normalise query) = normalise query.
Proof.
  unfold normalise at 2. rewrite normalise_trim. apply normalise_toLowerCase.
Qed.

Lemma trimStart_blank_app (pad s : string) :
  blank pad = true -> trimStart (pad ++ s) = trimStart s.
Proof.
  induction pad as [| c pad IH]; simpl; [reflexivity |].
  intros H. apply andb_true_iff in H as [Hc H]. rewrite Hc. now apply IH.
Qed.

Lemma trimEnd_app_blank (s pad : string) :
  blank pad = true -> trimEnd (s ++ pad) = trimEnd s.
Proof.
  intros H. induction s as [| c s IH]; simpl.
  - now apply trimEnd_empty_iff.
  - now rewrite IH.
Qed.

Lemma trimStart_app (s t : string) :
  blank s = false -> trimStart (s ++ t) = (trimStart s ++ t)%string.
Proof.
  induction s as [| c s IH]; simpl; [discriminate |].
  destruct (isWhiteSpace c); simpl; [exact IH | reflexivity].
Qed.

Lemma toLowerCase_app (s t : string) :
  toLowerCase (s ++ t) = (toLowerCase s ++ toLowerCase t)%string.
Proof.
  induction s as [| c s IH]; simpl; [reflexivity | now rewrite IH].
Qed.

Lemma normalise_padded (before query after : string) :
  blank before = true -> blank after = true ->
  normalise (before ++ query ++ after) = normalise query.
Proof.
  intros Hb Ha. unfold normalise, trim.
  rewrite !toLowerCase_app.
  rewrite trimStart_blank_app by now rewrite blank_toLowerCase.
  destruct (blank (toLowerCase query)) eqn:Eq.
  - rewrite <- (trimStart_blank (toLowerCase query)) in Eq.
    apply trimEnd_empty_iff in Eq as Eq'. rewrite Eq'.
    apply trimEnd_empty_iff. rewrite trimStart_blank.
    rewrite <- (blank_toLowerCase after) in Ha.
    rewrite trimStart_blank in Eq.
    clear Eq'. revert Eq. generalize (toLowerCase query).
    induction s as [| c s IH]; simpl; [intros _; exact Ha |].
    intros H. apply andb_true_iff in H as [Hc H]. now rewrite Hc, IH.
  - rewrite trimStart_app by exact Eq.
    apply trimEnd_app_blank. now rewrite blank_toLowerCase.
Qed.

(** X1. White space around a query changes nothing: a query, the query
    trimmed, its normal form and the query between two runs of white space
    all have the same answer. *)
Theorem parseSalesQuery_ignores_margins (query : string) :
  parseSalesQuery (trim query) = parseSalesQuery query
  /\ parseSalesQuery (normalise query) = parseSalesQuery query
  /\ forall before after : string,
      blank before = true -> blank after = true ->
      parseSalesQuery (before ++ query ++ after) = parseSalesQuery query.
Proof.
  unfold parseSalesQuery.
  rewrite normalise_trim, normalise_idem.
  split; [reflexivity |]. split; [reflexivity |].
  intros before after Hb Ha. now rewrite normalise_padded.
Qed.

(** ** The values of a scope *)

Lemma resolveScope_cases (q : string) :
  (exists t, In t typeKeywords /\ includes q t = true
             /\ resolveScope q = ByType t)
  \/ (existsb (includes q) typeKeywords = false
      /\ exists cat, In cat categoryMap /\ includes q cat = true
                     /\ resolveScope q = ByCategory (underscored cat))
  \/ (existsb (includes q) (typeKeywords ++ categoryMap) = false
      /\ nameHint q <> EmptyString
      /\ resolveScope q = ByNamePattern (nameHint q))
  \/ (existsb (includes q) (typeKeywords ++ categoryMap) = false
      /\ nameHint q = EmptyString
      /\ resolveScope q = Unscoped).
Proof.
  destruct (existsb (includes q) typeKeywords) eqn:Et.
  - left. apply existsb_exists in Et as (t & Ht & Hq).
    now apply (resolveScope_type q t).
  - right. pose proof Et as Et'. simpl in Et'.
    rewrite !orb_false_iff in Et'. destruct Et' as (H1 & H2 & H3 & _).
    unfold resolveScope. rewrite H1, H2, H3.
    destruct (find (fun cat => includes q cat) categoryMap) as [cat |] eqn:F.
    + left. split; [reflexivity |].
      destruct (find_split _ _ _ F) as (earlier & later & Hs & _ & Hc).
      exists cat. repeat split; [| exact Hc].
      rewrite Hs. apply in_or_app. right. now left.
    + right.
      assert (Hall : existsb (includes q) (typeKeywords ++ categoryMap) = false).
      { rewrite existsb_app, Et. simpl.
        assert (Hc : existsb (fun cat => includes q cat) categoryMap = false).
        { apply not_true_is_false. intros Hc.
          apply existsb_exists in Hc as (c & Hin & Hq).
          apply (find_none _ _ F) in Hin. cbv beta in Hin. congruence. }
        exact Hc. }
      destruct (nameHint q) eqn:En; cbn [truthy].
      * right. auto.
      * left. repeat split; [exact Hall | discriminate].
Qed.

(** X2. The scope of a request has one of few values: a type is "hair",
    "perfume" or "skin"; a category is one of the six categories of the
    sample products, in the spelling of the table; a name pattern is not
    empty, and neither starts nor ends with white space; and there is no
    scope only when no keyword occurs and the stop phrases leave nothing. *)
Theorem parseSalesQuery_scope_values (query : string) (period : Period)
  (scope : Scope) :
  parseSalesQuery query = Request period scope ->
  match scope with
  | ByType v => In v typeKeywords
  | ByCategory v => In v (map Product.category sampleProducts)
  | ByNamePattern v =>
      v <> EmptyString /\ first_solid v = true /\ last_solid v = true
  | Unscoped =>
      existsb (includes (normalise query)) (typeKeywords ++ categoryMap)
      = false
      /\ nameHint (normalise query) = EmptyString
  end.
Proof.
  intros H.
  destruct (parseSalesQuery_cases query) as [[_ Hp] | [_ Hp]];
    rewrite Hp in H; [discriminate |].
  injection H as _ <-.
  destruct (resolveScope_cases (normalise query))
    as [(t & Ht & _ & ->) | [(_ & cat & Hc & _ & ->)
        | [(Hk & Hn & ->) | (Hk & Hn & ->)]]].
  - exact Ht.
  - simpl in Hc.
    repeat (destruct Hc as [<- | Hc]; [vm_compute; tauto |]).
    contradiction.
  - split; [exact Hn |].
    unfold nameHint in *.
    destruct (trim_ends (Regex.replace true stopPhrases "" (normalise query)))
      as [E | E]; [contradiction | exact E].
  - auto.
Qed.

(** ** The words that make a week *)

Lemma prefix_trans (a b s : string) :
  prefix b a = true -> prefix a s = true -> prefix b s = true.
Proof.
  revert a s. induction b as [| x b IH]; intros a s Hba Has;
    [now destruct s |].
  destruct a as [| y a]; [discriminate |].
  destruct s as [| z s]; [discriminate |].
  cbn [prefix] in *.
  destruct (ascii_dec x y) as [-> | ?]; [| discriminate].
  destruct (ascii_dec y z) as [-> | ?]; [| discriminate].
  now apply (IH a s).
Qed.

Lemma includes_cons (c : ascii) (s sub : string) :
  includes s sub = true -> includes (String c s) sub = true.
Proof. intros H. cbn [includes]. rewrite H. apply orb_true_r. Qed.

Lemma includes_of_prefix (a s sub : string) :
  prefix a s = true -> includes a sub = true -> includes s sub = true.
Proof.
  revert s. induction a as [| y a IH]; intros s Has Hsub.
  - cbn in Hsub. rewrite orb_false_r in Hsub.
    destruct sub; [| discriminate]. now destruct s.
  - destruct s as [| z s]; [discriminate |].
    cbn [prefix] in Has. destruct (ascii_dec y z) as [-> | ?]; [| discriminate].
    cbn [includes] in Hsub. apply orb_true_iff in Hsub as [Hsub | Hsub].
    + cbn [includes]. apply orb_true_iff. left.
      apply (prefix_trans (String z a)); [exact Hsub |].
      cbn [prefix]. destruct (ascii_dec z z); [exact Has | congruence].
    + apply includes_cons. now apply IH.
Qed.

Lemma includes_trans (s a sub : string) :
  includes s a = true -> includes a sub = true -> includes s sub = true.
Proof.
  intros Hsa Hsub. induction s as [| c s IH].
  - cbn in Hsa. rewrite orb_false_r in Hsa.
    now apply (includes_of_prefix a "").
  - cbn [includes] in Hsa. apply orb_true_iff in Hsa as [Hsa | Hsa].
    + now apply (includes_of_prefix a).
    + apply includes_cons. now apply IH.
Qed.

(** X3. The period of a request is Week exactly when "week" occurs in the
    trimmed, lower-cased query and none of "today", "per day", "daily"
    does: the tests for "weekly" and "this week" add nothing to the test
    for "week". *)
Theorem parseSalesQuery_week_iff (query : string) (period : Period)
  (scope : Scope) :
  parseSalesQuery query = Request period scope ->
  let q := normalise query in
  (includes q "week" || includes q "weekly" || includes q "this week"
   = includes q "week")
  /\ (period = Week
      <-> includes q "week" = true
          /\ includes q "today" = false
          /\ includes q "per day" = false
          /\ includes q "daily" = false).
Proof.
  intros H q.
  destruct (parseSalesQuery_cases query) as [[_ Hp] | [_ Hp]];
    rewrite Hp in H; [discriminate |].
  injection H as <- _. fold q.
  assert (Hweek : includes q "week" || includes q "weekly"
                  || includes q "this week" = includes q "week").
  { destruct (includes q "week") eqn:E; [reflexivity |].
    destruct (includes q "weekly") eqn:E1.
    - rewrite (includes_trans q "weekly" "week" E1 eq_refl) in E. discriminate.
    - destruct (includes q "this week") eqn:E2; [| reflexivity].
      rewrite (includes_trans q "this week" "week" E2 eq_refl) in E.
      discriminate. }
  split; [exact Hweek |].
  unfold resolvePeriod. rewrite Hweek.
  destruct (includes q "week"), (includes q "today"), (includes q "per day"),
    (includes q "daily"); simpl; split; try tauto; try discriminate;
    intros (? & ? & ? & ?); discriminate.
Qed.

(** ** The spelling of a category *)

Lemma underscored_from_solid (s : string) (skip : nat) :
  every solid (Regex.replace_from false [[Regex.WsPlus]] "_" skip s) = true.
Proof.
  revert skip. induction s as [| c s IH]; intros skip.
  - destruct skip; reflexivity.
  - cbn [Regex.replace_from]. destruct skip as [| k]; [| apply IH].
    cbn [Regex.match_alts]. rewrite match_ws_run. cbn [leading].
    destruct (isWhiteSpace c) eqn:Ec.
    + rewrite every_append. now rewrite IH.
    + cbn [every]. unfold solid at 1. now rewrite Ec, IH.
Qed.

(** X4. The spelling of a category has no white space, whatever the text
    it is made from, and a text without white space is its own spelling. *)
Theorem underscored_no_white_space (s : string) :
  every solid (underscored s) = true
  /\ (every solid s = true -> underscored s = s).
Proof.
  split; [apply underscored_from_solid |].
  induction s as [| c s IH]; [reflexivity |].
  cbn [every]. intros H. apply andb_true_iff in H as [Hc H].
  unfold solid in Hc. apply negb_true_iff in Hc.
  now rewrite underscored_solid, IH.
Qed.

(** ** The name filter *)

Lemma c_text_app (a b : string) :
  nul_free a = true -> Sql.c_text (a ++ b) = (a ++ Sql.c_text b)%string.
Proof.
  unfold nul_free. induction a as [| c a IH]; simpl; [reflexivity |].
  intros H. apply andb_true_iff in H as [Hc H].
  apply negb_true_iff in Hc. now rewrite Hc, IH.
Qed.

Lemma c_text_pattern (s : string) :
  nul_free s = true -> Sql.c_text ("%" ++ s ++ "%") = ("%" ++ s ++ "%")%string.
Proof.
  intros H. change (Sql.c_text ("%" ++ s ++ "%"))
    with (String "%" (Sql.c_text (s ++ "%"))).
  now rewrite (c_text_app s "%" H).
Qed.

Lemma like_percent (p n : string) :
  Sql.like_text (String "%" p) n
  = Sql.like_text p n
    || match n with
       | EmptyString => false
       | String _ n' => Sql.like_text (String "%" p) n'
       end.
Proof. destruct n; reflexivity. Qed.

Lemma like_all (n : string) : Sql.like_text "%" n = true.
Proof.
  induction n as [| x n IH]; [reflexivity |].
  rewrite like_percent, IH. apply orb_true_r.
Qed.

Lemma like_prefix (s n : string) :
  wildcard_free s = true ->
  Sql.like_text (s ++ "%") n = prefix (nocase_string s) (nocase_string n).
Proof.
  unfold wildcard_free. revert n.
  induction s as [| c s IH]; intros n H.
  - cbn [append nocase_string]. rewrite like_all. now destruct n.
  - cbn [every] in H. apply andb_true_iff in H as [Hc H].
    apply andb_true_iff in Hc as [Hp Hu].
    apply negb_true_iff in Hp, Hu.
    cbn [append Sql.like_text]. rewrite Hp.
    destruct n as [| x n]; [reflexivity |].
    rewrite Hu, (IH n H). cbn [orb nocase_string prefix].
    destruct (ascii_dec (Sql.nocase c) (Sql.nocase x)) as [E | E].
    + rewrite E, Ascii.eqb_refl. reflexivity.
    + apply Ascii.eqb_neq in E. now rewrite E.
Qed.

Lemma like_prefix_found (s n : string) :
  prefix (nocase_string s) (nocase_string n) = true ->
  Sql.like_text (s ++ "%") n = true.
Proof.
  revert n. induction s as [| c s IH]; intros n H.
  - apply like_all.
  - destruct n as [| x n]; [discriminate |].
    cbn [nocase_string prefix] in H.
    destruct (ascii_dec (Sql.nocase c) (Sql.nocase x)) as [E | E];
      [| discriminate].
    specialize (IH n H).
    destruct (Ascii.eqb c "%") eqn:Hp.
    + apply Ascii.eqb_eq in Hp. subst c. cbn [append].
      rewrite like_percent. apply orb_true_iff. right.
      rewrite like_percent, IH. reflexivity.
    + cbn [append Sql.like_text]. rewrite Hp, E, Ascii.eqb_refl, IH.
      now rewrite orb_true_r.
Qed.

Lemma like_text_contains (s n : string) :
  wildcard_free s = true ->
  Sql.like_text ("%" ++ s ++ "%") n
  = includes (nocase_string n) (nocase_string s).
Proof.
  intros H. cbn [append]. induction n as [| x n IH].
  - rewrite like_percent, (like_prefix s "" H). reflexivity.
  - rewrite like_percent, (like_prefix s _ H), IH. reflexivity.
Qed.

Lemma like_text_contains_found (s n : string) :
  includes (nocase_string n) (nocase_string s) = true ->
  Sql.like_text ("%" ++ s ++ "%") n = true.
Proof.
  cbn [append]. induction n as [| x n IH]; intros H.
  - cbn [nocase_string includes] in H. rewrite orb_false_r in H.
    rewrite like_percent, (like_prefix_found s "" H). reflexivity.
  - cbn [nocase_string includes] in H. rewrite like_percent.
    apply orb_true_iff in H as [H | H].
    + now rewrite (like_prefix_found s (String x n) H).
    + rewrite (IH H). apply orb_true_r.
Qed.

Lemma like_contains (s name : string) :
  nul_free s = true -> wildcard_free s = true ->
  Sql.like ("%" ++ s ++ "%") name
  = includes (nocase_string (Sql.c_text name)) (nocase_string s).
Proof.
  intros Hn Hw. unfold Sql.like. rewrite (c_text_pattern s Hn).
  now apply like_text_contains.
Qed.

(** X5. The engine reads the pattern and the name of [name LIKE '%s%'] up
    to their first NUL. For a filter [s] without NUL the filter holds for
    every name in which (read so) [s] occurs, the case of the letters A-Z
    apart, and when [s] has neither [%] nor [_] for no other name. The two
    wildcards are not escaped, so with them the filter holds for more
    names; a NUL in [s] cuts the pattern, which then asks for the end of
    the name. *)
Theorem name_filter_is_substring (s name : string) :
  (nul_free s = true ->
   includes (nocase_string (Sql.c_text name)) (nocase_string s) = true ->
   Sql.like ("%" ++ s ++ "%") name = true)
  /\ (nul_free s = true -> wildcard_free s = true ->
      Sql.like ("%" ++ s ++ "%") name
      = includes (nocase_string (Sql.c_text name)) (nocase_string s))
  /\ Sql.like ("%" ++ "b_dy" ++ "%") "Body Lotion Smooth" = true
  /\ includes (nocase_string "Body Lotion Smooth") (nocase_string "b_dy")
     = false
  /\ Sql.like ("%" ++ String "p" (String "r" (String "o" (String Ascii.zero "zz")))
                 ++ "%") "Shampoo Pro" = true
  /\ Sql.like ("%" ++ String "s" (String "h" (String "a" (String Ascii.zero "zz")))
                 ++ "%") "Shampoo Pro" = false.
Proof.
  split; [| split; [apply like_contains | repeat split; reflexivity]].
  intros Hn H. unfold Sql.like. rewrite (c_text_pattern s Hn).
  now apply like_text_contains_found.
Qed.

(** ** The rows of a query *)

Lemma lower_case_nocase (c : ascii) :
  lower_case c = true -> Sql.nocase c = c.
Proof.
  destruct c as [[] [] [] [] [] [] [] []]; vm_compute;
    intros H; solve [reflexivity | discriminate H].
Qed.

Lemma lower_case_nocase_string (s : string) :
  every lower_case s = true -> nocase_string s = s.
Proof.
  induction s as [| c s IH]; simpl; [reflexivity |].
  intros H. apply andb_true_iff in H as [Hc H].
  now rewrite (lower_case_nocase c Hc), IH.
Qed.

Lemma where_filters_scope (q : string) (p : Product.t) :
  let scope := resolveScope q in
  where_filters (scope_name scope) (scope_type scope) (scope_category scope) p
  = scope_selects scope p.
Proof.
  cbn zeta.
  destruct (resolveScope_cases q)
    as [(t & Ht & _ & ->) | [(_ & cat & Hc & _ & ->)
        | [(_ & Hn & ->) | (_ & _ & ->)]]];
    unfold where_filters; cbn [scope_name scope_type scope_category
                                 scope_selects when].
  - simpl in Ht. destruct Ht as [<- | [<- | [<- | []]]];
      cbn [truthy andb]; now rewrite andb_true_r.
  - simpl in Hc.
    repeat (destruct Hc as [<- | Hc];
            [vm_compute underscored; cbn [truthy andb]; reflexivity |]).
    contradiction.
  - apply truthy_true_iff in Hn. rewrite Hn. now rewrite !andb_true_r.
  - reflexivity.
Qed.

Lemma results_Permutation (rows rows' : list Product.t) (period : Period) :
  Permutation rows rows' ->
  Permutation (results rows period) (results rows' period).
Proof. unfold results. apply Permutation_map. Qed.

Lemma apiQuery_rows (db : list Product.t) (question : string)
  (period : Period) (scope : Scope) (totals : Totals) (items : list Item.t) :
  apiQuery db question = QueryOk period scope totals items ->
  parseSalesQuery question = Request period scope
  /\ exists rows,
      Permutation (filter (scope_selects scope) db) rows
      /\ items = results rows period
      /\ totals = {| sales := totalSales items; revenue := totalRevenue items |}.
Proof.
  unfold apiQuery.
  destruct (parseSalesQuery_cases question) as [[_ Hp] | [_ Hp]];
    rewrite Hp; [discriminate |].
  unfold computeLineItems. intros [= <- <- <- <-].
  split; [reflexivity |].
  eexists. split; [| split; reflexivity].
  unfold select_products.
  rewrite (filter_ext _ _ (where_filters_scope (normalise question))).
  apply Sql.ByName.Permuted_sort.
Qed.

(** X6. The route of the query answers with the error "Empty query"
    exactly for a question of white space only. For any other question its items are those of the rows the scope stands
    for, each once: all rows without a scope, the rows of the type or of
    the category, the rows whose name passes the name filter. *)
Theorem apiQuery_selects_scope (db : list Product.t) (question : string) :
  (blank question = true <-> apiQuery db question = BadRequest "Empty query")
  /\ (forall e, apiQuery db question = BadRequest e -> e = "Empty query")
  /\ (forall period scope totals items,
        apiQuery db question = QueryOk period scope totals items ->
        parseSalesQuery question = Request period scope
        /\ Permutation (results (filter (scope_selects scope) db) period) items
        /\ List.length items = List.length (filter (scope_selects scope) db)).
Proof.
  split; [| split].
  - rewrite <- normalise_empty_iff. unfold apiQuery.
    destruct (parseSalesQuery_cases question) as [[Hq Hp] | [Hq Hp]];
      rewrite Hp.
    + tauto.
    + unfold computeLineItems. split; [contradiction | discriminate].
  - intros e. unfold apiQuery.
    destruct (parseSalesQuery_cases question) as [[Hq Hp] | [Hq Hp]];
      rewrite Hp; [congruence |].
    unfold computeLineItems. discriminate.
  - intros period scope totals items H.
    apply apiQuery_rows in H as (Hp & rows & Hperm & -> & _).
    split; [exact Hp |]. split.
    + now apply results_Permutation.
    + unfold results. rewrite length_map.
      symmetry. now apply Permutation_length.
Qed.

(** X7. When the scope of a question is a name pattern without NUL, [%]
    and [_], the items are those of the rows in whose name (read up to its
    first NUL) the pattern occurs, the case of the letters A-Z of the name
    apart. *)
Theorem apiQuery_by_name (db : list Product.t) (question : string)
  (period : Period) (v : string) (totals : Totals) (items : list Item.t) :
  apiQuery db question = QueryOk period (ByNamePattern v) totals items ->
  nul_free v = true ->
  wildcard_free v = true ->
  Permutation
    (results
       (filter
          (fun p => includes (nocase_string (Sql.c_text (Product.name p))) v)
          db)
       period)
    items.
Proof.
  intros H Hn Hw.
  apply apiQuery_rows in H as (Hp & rows & Hperm & -> & _).
  apply (results_Permutation _ _ period) in Hperm.
  assert (Hv : nocase_string v = v).
  { apply lower_case_nocase_string.
    destruct (parseSalesQuery_cases question) as [[_ Hq] | [_ Hq]];
      rewrite Hq in Hp; [discriminate |].
    injection Hp as _ Hs.
    destruct (resolveScope_cases (normalise question))
      as [(t & _ & _ & E) | [(_ & cat & _ & _ & E)
          | [(_ & _ & E) | (_ & _ & E)]]];
      rewrite E in Hs; try discriminate.
    injection Hs as <-.
    apply every_lower_case_nameHint, every_lower_case_normalise. }
  erewrite filter_ext; [exact Hperm |].
  intros p. cbn [scope_selects]. now rewrite like_contains, Hv.
Qed.

(** ** One question, two paths *)

Lemma request_type_keyword (question : string) (period : Period)
  (ty : string) :
  parseSalesQuery question = Request period (ByType ty) ->
  In ty typeKeywords.
Proof.
  intros H.
  destruct (parseSalesQuery_cases question) as [[_ Hp] | [_ Hp]];
    rewrite Hp in H; [discriminate |].
  injection H as _ Hs.
  destruct (resolveScope_cases (normalise question))
    as [(t & Ht & _ & E) | [(_ & cat & _ & _ & E)
        | [(_ & _ & E) | (_ & _ & E)]]];
    rewrite E in Hs; try discriminate.
  now injection Hs as <-.
Qed.

Lemma filter_all {A : Type} (l : list A) : filter (fun _ => true) l = l.
Proof. induction l as [| x l IH]; simpl; [reflexivity | now rewrite IH]. Qed.

Lemma weekly_sales_rows_Permutation (db : list Product.t)
  (type : option string) :
  Permutation
    (map weekly_row
       (filter (fun p => when type (fun ty => String.eqb (Product.type p) ty))
          db))
    (weekly_sales_rows db None type).
Proof.
  unfold weekly_sales_rows, when.
  destruct type as [ty |]; [destruct (truthy ty) |].
  - apply Sql.ByWeeklyDesc.Permuted_sort.
  - rewrite filter_all. apply Sql.ByWeeklyDesc.Permuted_sort.
  - rewrite filter_all. apply Sql.ByWeeklyDesc.Permuted_sort.
Qed.

(** X9. A question with the period Week and a scope by type has, in its
    answer, the products the weekly sales of that type have, each once and
    each with the same sales and the same revenue, though the two answers
    order their rows differently. (The totals of the two answers add these
    same values in the two orders.) *)
Theorem query_and_weekly_sales_agree (db : list Product.t)
  (question : string) (ty : string) (totals : Totals) (items : list Item.t) :
  apiQuery db question = QueryOk Week (ByType ty) totals items ->
  let answer := get_weekly_sales db None (Some ty) in
  Permutation
    (map (fun r => (Item.id r, Item.sales r, Item.revenue r)) items)
    (map (fun r => (WeeklyRow.id r, WeeklyRow.weekly_sales r,
                    WeeklyRow.weekly_revenue r))
       (products answer)).
Proof.
  intros H. cbn zeta.
  apply apiQuery_rows in H as (Hp & rows & Hperm & -> & _).
  apply request_type_keyword in Hp.
  assert (Hty : truthy ty = true)
    by (simpl in Hp; destruct Hp as [<- | [<- | [<- | []]]]; reflexivity).
  unfold get_weekly_sales, weekly_response. cbn [products].
  pose proof (weekly_sales_rows_Permutation db (Some ty)) as Hw.
  cbn [when] in Hw. rewrite Hty in Hw. cbn [scope_selects] in Hperm.
  transitivity
    (map (fun p => (Product.id p, Product.sales_per_day p * 7,
                    Product.sales_per_day p * 7 * Product.cost p))
       (filter (fun p => String.eqb (Product.type p) ty) db)).
  - unfold results. rewrite map_map. cbn [Item.id Item.sales Item.revenue].
    symmetry. now apply Permutation_map.
  - apply (Permutation_map
             (fun r => (WeeklyRow.id r, WeeklyRow.weekly_sales r,
                        WeeklyRow.weekly_revenue r))) in Hw.
    now rewrite map_map in Hw.
Qed.

(** ** The listing *)

(** X10. The listing has each row of the table that passes the filters
    given, once, and no other row: the name filter, the type and the
    category hold together for each row listed. A filter that is absent or
    the empty string does not count, and without filters the listing has
    every row of the table. *)
Theorem apiProducts_filters (db : list Product.t)
  (name type category : option string) :
  let rows := apiProducts db name type category in
  Permutation (filter (where_filters name type category) db) rows
  /\ (forall p, In p rows <->
        In p db
        /\ (forall s, name = Some s -> s <> EmptyString ->
            Sql.like ("%" ++ s ++ "%") (Product.name p) = true)
        /\ (forall s, type = Some s -> s <> EmptyString ->
            Product.type p = s)
        /\ (forall s, category = Some s -> s <> EmptyString ->
            Product.category p = s))
  /\ apiProducts db (Some EmptyString) type category
     = apiProducts db None type category
  /\ apiProducts db name (Some EmptyString) category
     = apiProducts db name None category
  /\ apiProducts db name type (Some EmptyString)
     = apiProducts db name type None
  /\ Permutation db (apiProducts db None None None)
  /\ get_products db name type category = rows.
Proof.
  cbn zeta. unfold apiProducts, get_products.
  pose proof (select_products_rows db name type category) as Hperm.
  split; [exact Hperm |]. split; [| repeat split].
  - intros p. rewrite <- (Permutation_in' eq_refl Hperm), filter_In.
    unfold where_filters, when. rewrite !andb_true_iff.
    assert (Hwhen : forall (v : option string) (cond : string -> bool),
               match v with
               | Some s => if truthy s then cond s else true
               | None => true
               end = true
               <-> (forall s, v = Some s -> s <> EmptyString -> cond s = true)).
    { intros [s |] cond.
      - destruct s as [| c s]; cbn [truthy].
        + split; [intros _ s' [= <-] Hne; congruence | reflexivity].
        + split; [intros H s' [= <-] _; exact H |].
          intros H. apply (H _ eq_refl). discriminate.
      - split; [intros _ s' E; discriminate | reflexivity]. }
    rewrite !Hwhen. setoid_rewrite String.eqb_eq. tauto.
  - unfold select_products.
    rewrite (filter_ext (where_filters None None None) (fun _ => true))
      by reflexivity.
    rewrite filter_all. apply Sql.ByName.Permuted_sort.
Qed.

(** ** What the statistics add up to *)

Module StatFacts.
Import Aggregate AggregateFacts GroupFacts.

Lemma upsert_counts (p : Product.t) (groups : list (string * acc)) :
  list_sum (map (fun g => count (snd g)) (upsert p groups))
  = S (list_sum (map (fun g => count (snd g)) groups)).
Proof.
  induction groups as [| [k a] groups IH]; simpl; [reflexivity |].
  destruct (String.compare (Product.type p) k); simpl.
  - reflexivity.
  - reflexivity.
  - rewrite IH. lia.
Qed.

Lemma group_counts (db : list Product.t) :
  list_sum (map (fun g => count (snd g)) (group_by_type db)) = List.length db.
Proof.
  induction db as [| p db IH] using rev_ind; [reflexivity |].
  rewrite group_by_type_snoc, upsert_counts, IH, length_app. simpl. lia.
Qed.

End StatFacts.

(** X11. The groups of the statistics split the table: the product counts
    of the groups add up to the number of the products, each group has at
    least one product, and there is no group exactly when the table has no
    row. *)
Theorem computeTypeStatistics_adds_up (SUM AVG : list Q -> Q)
  (db : list Product.t) :
  let stats := computeTypeStatistics SUM AVG db in
  list_sum (map TypeStat.product_count stats) = List.length db
  /\ Forall (fun g => (1 <= TypeStat.product_count g)%nat) stats
  /\ (stats = [] <-> db = []).
Proof.
  cbn zeta. unfold computeTypeStatistics.
  split; [| split].
  - rewrite map_map, <- (StatFacts.group_counts db).
    f_equal. apply map_ext. now intros [k a].
  - apply Forall_forall. intros g Hg.
    apply in_map_iff in Hg as ([k a] & <- & Hin).
    apply (AggregateFacts.lookup_In _ _ _
             (GroupFacts.group_by_type_sorted db)) in Hin.
    rewrite GroupFacts.group_by_type_lookup in Hin.
    apply GroupFacts.aggregate_facts in Hin as (Hne & Hc & _).
    cbn [Aggregate.finish TypeStat.product_count]. rewrite Hc.
    destruct (rows_of_type k db); [congruence | simpl; lia].
  - pose proof (StatFacts.group_counts db) as H.
    destruct (Aggregate.group_by_type db) as [| g gs] eqn:E.
    + simpl in H. split; [intros _ | reflexivity].
      destruct db; [reflexivity | discriminate].
    + split; [discriminate |]. intros ->. discriminate.
Qed.

(** ** The table under the requests that write *)

Module StoreFacts.
Import Store.

Lemma get_some (s : t) (k : Z) (p : Product.t) :
  get s k = Some p -> In p (rows s) /\ Product.id p = k.
Proof.
  unfold get. intros H. apply find_some in H as [Hin Hk].
  split; [exact Hin | now apply Z.eqb_eq].
Qed.

Lemma get_none (s : t) (k : Z) :
  get s k = None <-> (forall p, In p (rows s) -> Product.id p <> k).
Proof.
  unfold get. split.
  - intros H p Hin E. apply (find_none _ _ H) in Hin.
    apply Z.eqb_neq in Hin. contradiction.
  - intros H. induction (rows s) as [| p l IH]; [reflexivity |].
    simpl. destruct (Z.eqb_spec (Product.id p) k) as [E | _].
    + exfalso. apply (H p); [now left | exact E].
    + apply IH. intros p' Hin. apply H. now right.
Qed.

Lemma get_of_row (s : t) (p : Product.t) :
  well_formed s -> In p (rows s) -> get s (Product.id p) = Some p.
Proof.
  unfold well_formed, get. intros (Hs & _ & _).
  induction Hs as [| q l _ IH Hq]; intros Hin; [contradiction |].
  simpl. destruct Hin as [-> | Hin].
  - now rewrite Z.eqb_refl.
  - destruct (Z.eqb_spec (Product.id q) (Product.id p)) as [E | _];
      [| now apply IH].
    rewrite Forall_forall in Hq. specialize (Hq p Hin). lia.
Qed.

Lemma max_id_le (l : list Product.t) (m : Z) :
  Forall (fun p => (0 < Product.id p <= m)%Z) l -> (0 <= m)%Z ->
  (max_id l <= m)%Z.
Proof.
  intros H Hm. induction H as [| p l Hp _ IH]; simpl; [exact Hm | lia].
Qed.

Lemma new_id (s : t) :
  well_formed s -> (Z.max (seq s) (max_id (rows s)) + 1 = seq s + 1)%Z.
Proof.
  intros (_ & Hb & Hm). pose proof (max_id_le _ _ Hb Hm). lia.
Qed.

Lemma StronglySorted_snoc {A : Type} (R : A -> A -> Prop) (l : list A)
  (y : A) :
  StronglySorted R l -> Forall (fun x => R x y) l ->
  StronglySorted R (l ++ [y]).
Proof.
  induction 1 as [| x l Hs IH Hx]; intros Hy; simpl.
  - constructor; constructor.
  - inversion Hy as [| ? ? Hxy Hl]; subst.
    constructor; [now apply IH |].
    apply Forall_app. split; [exact Hx | now constructor].
Qed.

Lemma StronglySorted_filter {A : Type} (R : A -> A -> Prop)
  (f : A -> bool) (l : list A) :
  StronglySorted R l -> StronglySorted R (filter f l).
Proof.
  induction 1 as [| x l Hs IH Hx]; simpl; [constructor |].
  destruct (f x); [| exact IH].
  constructor; [exact IH |].
  apply Forall_forall. intros y Hy. apply filter_In in Hy as [Hy _].
  rewrite Forall_forall in Hx. now apply Hx.
Qed.

Lemma insert_well_formed (s : t) (name type category : string)
  (cost sales_per_day : Q) :
  well_formed s ->
  well_formed (insert s name type category cost sales_per_day).
Proof.
  intros Hwf. pose proof (new_id s Hwf) as Hid.
  destruct Hwf as (Hs & Hb & Hm).
  unfold well_formed, insert. cbn [rows seq]. rewrite Hid.
  split; [| split; [| lia]].
  - apply StronglySorted_snoc; [exact Hs |].
    eapply Forall_impl; [| exact Hb]. intros p Hp. cbn beta in *.
    cbn [Product.id]. lia.
  - apply Forall_app. split.
    + eapply Forall_impl; [| exact Hb]. intros p Hp. cbn beta in *. lia.
    + constructor; [cbn [Product.id]; lia | constructor].
Qed.

Lemma insert_get (s : t) (name type category : string)
  (cost sales_per_day : Q) (k : Z) :
  well_formed s ->
  get (insert s name type category cost sales_per_day) k
  = if Z.eqb k (seq s + 1)
    then Some (Product.mk (seq s + 1) name type category cost sales_per_day)
    else get s k.
Proof.
  intros Hwf. pose proof (new_id s Hwf) as Hid.
  destruct Hwf as (_ & Hb & _).
  unfold get, insert. cbn [rows]. rewrite Hid. clear Hid.
  induction Hb as [| p l Hp _ IH]; simpl.
  - rewrite (Z.eqb_sym k). now destruct (Z.eqb (seq s + 1) k).
  - destruct (Z.eqb_spec (Product.id p) k) as [E | _]; [| exact IH].
    destruct (Z.eqb_spec k (seq s + 1)); [lia | reflexivity].
Qed.

Lemma update_ids (s : t) (id : Z) (updates : Fields.t) :
  map Product.id (rows (store_update s id updates))
  = map Product.id (rows s).
Proof.
  unfold store_update. cbn [rows]. rewrite map_map.
  apply map_ext. intros p. now destruct (Z.eqb (Product.id p) id).
Qed.

Lemma update_get (s : t) (id : Z) (updates : Fields.t) (k : Z) :
  get (store_update s id updates) k
  = if Z.eqb k id then option_map (set_fields updates) (get s k)
    else get s k.
Proof.
  unfold get, store_update. cbn [rows].
  induction (rows s) as [| p l IH]; simpl.
  - now destruct (Z.eqb k id).
  - destruct (Z.eqb_spec (Product.id p) id) as [E | E]; cbn [Product.id set_fields].
    + destruct (Z.eqb_spec (Product.id p) k) as [E' | E'].
      * rewrite <- E', E, Z.eqb_refl. reflexivity.
      * exact IH.
    + destruct (Z.eqb_spec (Product.id p) k) as [E' | E'].
      * destruct (Z.eqb_spec k id); [congruence | reflexivity].
      * exact IH.
Qed.

Lemma update_absent (s : t) (id : Z) (updates : Fields.t) :
  get s id = None -> store_update s id updates = s.
Proof.
  intros H. rewrite get_none in H. destruct s as [l n].
  unfold store_update. cbn [rows seq] in *. f_equal.
  induction l as [| p l IH]; simpl; [reflexivity |].
  destruct (Z.eqb_spec (Product.id p) id) as [E | _].
  - exfalso. apply (H p); [now left | exact E].
  - f_equal. apply IH. intros p' Hin. apply H. now right.
Qed.

Lemma update_well_formed (s : t) (id : Z) (updates : Fields.t) :
  well_formed s -> well_formed (store_update s id updates).
Proof.
  intros (Hs & Hb & Hm). unfold well_formed, store_update. cbn [rows seq].
  split; [| split; [| exact Hm]].
  - clear Hb. induction Hs as [| p l _ IH Hp]; simpl; constructor;
      [exact IH |].
    apply Forall_map. eapply Forall_impl; [| exact Hp].
    intros q Hq.
    destruct (Z.eqb (Product.id p) id), (Z.eqb (Product.id q) id);
      exact Hq.
  - apply Forall_map. eapply Forall_impl; [| exact Hb].
    intros q Hq. now destruct (Z.eqb (Product.id q) id).
Qed.

Lemma delete_get (s : t) (id k : Z) :
  get (delete s id) k = if Z.eqb k id then None else get s k.
Proof.
  unfold get, delete. cbn [rows].
  induction (rows s) as [| p l IH]; simpl.
  - now destruct (Z.eqb k id).
  - destruct (Z.eqb_spec (Product.id p) id) as [E | E]; simpl.
    + destruct (Z.eqb_spec (Product.id p) k) as [E' | E']; [| exact IH].
      rewrite IH, <- E', E, Z.eqb_refl. reflexivity.
    + destruct (Z.eqb_spec (Product.id p) k) as [E' | E']; [| exact IH].
      destruct (Z.eqb_spec k id); [congruence | reflexivity].
Qed.

Lemma delete_well_formed (s : t) (id : Z) :
  well_formed s -> well_formed (delete s id).
Proof.
  intros (Hs & Hb & Hm). unfold well_formed, delete. cbn [rows seq].
  split; [| split; [| exact Hm]].
  - now apply StronglySorted_filter.
  - apply Forall_forall. intros p Hp. apply filter_In in Hp as [Hp _].
    rewrite Forall_forall in Hb. now apply Hb.
Qed.

Lemma delete_absent (s : t) (id : Z) :
  get s id = None -> delete s id = s.
Proof.
  intros H. rewrite get_none in H. destruct s as [l n].
  unfold delete. cbn [rows seq] in *. f_equal.
  induction l as [| p l IH]; simpl; [reflexivity |].
  destruct (Z.eqb_spec (Product.id p) id) as [E | _]; simpl.
  - exfalso. apply (H p); [now left | exact E].
  - f_equal. apply IH. intros p' Hin. apply H. now right.
Qed.

End StoreFacts.

Lemma apiAddProduct_cases (s : Store.t) (name type category : string)
  (cost sales_per_day : Q) :
  name <> EmptyString -> type <> EmptyString -> category <> EmptyString ->
  apiAddProduct s (all_fields name type category cost sales_per_day)
  = (Store.insert s name type category cost sales_per_day,
     ApiOk "Product added successfully"
       (Store.get (Store.insert s name type category cost sales_per_day)
          (Store.seq (Store.insert s name type category cost sales_per_day)))).
Proof.
  intros Hn Ht Hc. apply truthy_true_iff in Hn, Ht, Hc.
  unfold apiAddProduct, all_fields. cbn [Fields.name Fields.type
    Fields.category Fields.cost Fields.sales_per_day falsy undefined assign].
  rewrite Hn, Ht, Hc. reflexivity.
Qed.

Lemma body_of_fields (fields : Fields.t) :
  given_fields (body_of fields) = fields
  /\ null_columns (body_of fields) = [].
Proof.
  destruct fields as [[n |] [t |] [c |] [co |] [sp |]]; split; reflexivity.
Qed.

(** X13. The route that adds a product answers 400 and leaves the table
    when the name, the type or the category of the body is [undefined],
    [null] or empty, or the cost or the sales per day is [undefined].
    When they pass and the cost or the sales per day is [null] the
    [INSERT] fails: the route answers 500 with the message of the engine
    and leaves the table. When all five are values the row is inserted as
    given: a cost or sales of 0 pass, and the type is not compared with
    the three types. On a body without [null] the route is
    [apiAddProduct]. *)
Theorem apiAddProduct_validation (not_null_failed : list string -> string)
  (s : Store.t) (body : Body.t) :
  let missing :=
    ApiError 400
      "Missing required fields: name, type, category, cost, sales_per_day" in
  (Body.name body = Undefined \/ Body.name body = Null
   \/ Body.name body = Given EmptyString
   \/ Body.type body = Undefined \/ Body.type body = Null
   \/ Body.type body = Given EmptyString
   \/ Body.category body = Undefined \/ Body.category body = Null
   \/ Body.category body = Given EmptyString
   \/ Body.cost body = Undefined \/ Body.sales_per_day body = Undefined ->
   apiAddProductBody not_null_failed s body = (s, missing))
  /\ (forall name type category cost sales_per_day,
        body = Body.mk (Given name) (Given type) (Given category) cost
                 sales_per_day ->
        name <> EmptyString -> type <> EmptyString ->
        category <> EmptyString ->
        cost <> Undefined -> sales_per_day <> Undefined ->
        cost = Null \/ sales_per_day = Null ->
        apiAddProductBody not_null_failed s body
        = (s, ApiError 500 (not_null_failed (null_columns body)))
        /\ null_columns body <> [])
  /\ (forall name type category cost sales_per_day,
        body = Body.mk (Given name) (Given type) (Given category)
                 (Given cost) (Given sales_per_day) ->
        name <> EmptyString -> type <> EmptyString ->
        category <> EmptyString ->
        let s' := Store.insert s name type category cost sales_per_day in
        apiAddProductBody not_null_failed s body
        = (s', ApiOk "Product added successfully"
                 (Store.get s' (Store.seq s'))))
  /\ (forall fields,
        apiAddProductBody not_null_failed s (body_of fields)
        = apiAddProduct s fields).
Proof.
  cbn zeta. split; [| split; [| split]].
  - unfold apiAddProductBody. destruct body as [n t c co sp].
    cbn [Body.name Body.type Body.category Body.cost Body.sales_per_day].
    intros H.
    repeat (destruct H as [-> | H]); try subst;
      cbn [not_truthy is_undefined truthy negb orb]; rewrite ?orb_true_r;
      reflexivity.
  - intros name type category cost sales_per_day -> Hn Ht Hc Hco Hsp Hnull.
    apply truthy_true_iff in Hn, Ht, Hc.
    unfold apiAddProductBody, null_columns.
    cbn [Body.name Body.type Body.category Body.cost Body.sales_per_day
           not_truthy is_null].
    rewrite Hn, Ht, Hc.
    destruct cost as [| | co], sales_per_day as [| | sp];
      try congruence; try (destruct Hnull; discriminate);
      cbn; (split; [reflexivity | discriminate]).
  - intros name type category cost sales_per_day -> Hn Ht Hc.
    apply truthy_true_iff in Hn, Ht, Hc.
    unfold apiAddProductBody.
    cbn [Body.name Body.type Body.category Body.cost Body.sales_per_day
           not_truthy is_undefined].
    rewrite Hn, Ht, Hc. reflexivity.
  - intros [[n |] [t |] [c |] [co |] [sp |]];
      unfold apiAddProductBody, apiAddProduct, body_of;
      cbn [Body.name Body.type Body.category Body.cost Body.sales_per_day
             Fields.name Fields.type Fields.category Fields.cost
             Fields.sales_per_day not_truthy is_undefined falsy undefined];
      rewrite ?orb_true_r; reflexivity.
Qed.

(** X14. On a well-formed table the tool that adds a product, and the
    route for a body it accepts, answer with the row they inserted: it has
    the fields given and the identifier one above the counter, which no
    row had before; it is the last row, it is found by its identifier, the
    other identifiers find what they found before, and the table stays
    well formed. *)
Theorem add_product_round_trip (s : Store.t) (name type category : string)
  (cost sales_per_day : Q) :
  well_formed s ->
  let p :=
    Product.mk (Store.seq s + 1) name type category cost sales_per_day in
  let s' := Store.insert s name type category cost sales_per_day in
  add_product s name type category cost sales_per_day
  = (s', ToolOk "Product added successfully" (Some p))
  /\ (name <> EmptyString -> type <> EmptyString -> category <> EmptyString ->
      apiAddProduct s (all_fields name type category cost sales_per_day)
      = (s', ApiOk "Product added successfully" (Some p)))
  /\ Store.rows s' = Store.rows s ++ [p]
  /\ Store.get s (Store.seq s + 1) = None
  /\ Store.get s' (Store.seq s + 1) = Some p
  /\ (forall k, k <> (Store.seq s + 1)%Z -> Store.get s' k = Store.get s k)
  /\ well_formed s'.
Proof.
  intros Hwf p s'.
  assert (Hseq : Store.seq s' = (Store.seq s + 1)%Z).
  { unfold s', Store.insert. cbn [Store.seq]. apply StoreFacts.new_id, Hwf. }
  assert (Hget : Store.get s' (Store.seq s + 1) = Some p).
  { unfold s'. rewrite StoreFacts.insert_get by exact Hwf.
    now rewrite Z.eqb_refl. }
  split; [| split; [| split; [| split; [| split; [| split]]]]].
  - unfold add_product, Store.last_insert_rowid. fold s'.
    now rewrite Hseq, Hget.
  - intros Hn Ht Hc.
    rewrite (apiAddProduct_cases s name type category cost sales_per_day
               Hn Ht Hc).
    fold s'. now rewrite Hseq, Hget.
  - unfold s', Store.insert. cbn [Store.rows].
    now rewrite (StoreFacts.new_id s Hwf).
  - apply StoreFacts.get_none. intros q Hq.
    destruct Hwf as (_ & Hb & _). rewrite Forall_forall in Hb.
    specialize (Hb q Hq). lia.
  - exact Hget.
  - intros k Hk. unfold s'. rewrite StoreFacts.insert_get by exact Hwf.
    destruct (Z.eqb_spec k (Store.seq s + 1)); [contradiction | reflexivity].
  - now apply StoreFacts.insert_well_formed.
Qed.

Lemma set_fields_idem (updates : Fields.t) (p : Product.t) :
  set_fields updates (set_fields updates p) = set_fields updates p.
Proof.
  destruct updates as [[n |] [t |] [c |] [co |] [sp |]]; reflexivity.
Qed.

Lemma apiUpdateProduct_cases (s : Store.t) (id : Z) (updates : Fields.t) :
  no_fields updates = false ->
  apiUpdateProduct s id updates
  = match Store.get s id with
    | None => (s, ApiError 404 "Product not found")
    | Some p =>
        (store_update s id updates,
         ApiOk "Product updated successfully" (Some (set_fields updates p)))
    end.
Proof.
  intros Hf. unfold apiUpdateProduct. rewrite Hf.
  rewrite StoreFacts.update_get, Z.eqb_refl.
  destruct (Store.get s id) as [p |] eqn:E; cbn [option_map];
    [reflexivity |].
  now rewrite (StoreFacts.update_absent s id updates E).
Qed.

Lemma no_fields_given_fields (body : Body.t) :
  null_columns body = [] ->
  no_fields (given_fields body) = no_fields_given body.
Proof.
  destruct body as [[| | n] [| | t] [| | c] [| | co] [| | sp]];
    cbn; intros H; try reflexivity; discriminate.
Qed.

(** X15. The route that updates a product answers 400 when every field of
    the body is [undefined], whether the product exists or not; else 404
    when no row has the identifier, and the table stays as it is; else 500
    with the message of the engine, and the table as it is, when a field
    is [null]; else it answers with the row in which the columns name,
    type, category, cost and sales_per_day that the body gives are
    replaced and the others of these, and the identifier, are kept. After
    it the identifier finds that row, every other identifier finds what it
    found before, and the identifiers and the counter of the table are as
    before. On a body without [null] the route is [apiUpdateProduct]. *)
Theorem apiUpdateProduct_behaviour (not_null_failed : list string -> string)
  (s : Store.t) (id : Z) (body : Body.t) :
  (no_fields_given body = true ->
   apiUpdateProductBody not_null_failed s id body
   = (s, ApiError 400 "No fields to update"))
  /\ (no_fields_given body = false -> Store.get s id = None ->
      apiUpdateProductBody not_null_failed s id body
      = (s, ApiError 404 "Product not found"))
  /\ (no_fields_given body = false ->
      forall p, Store.get s id = Some p ->
        null_columns body <> [] ->
        apiUpdateProductBody not_null_failed s id body
        = (s, ApiError 500 (not_null_failed (null_columns body))))
  /\ (no_fields_given body = false ->
      forall p, Store.get s id = Some p ->
        null_columns body = [] ->
        let updates := given_fields body in
        let s' := fst (apiUpdateProductBody not_null_failed s id body) in
        snd (apiUpdateProductBody not_null_failed s id body)
        = ApiOk "Product updated successfully" (Some (set_fields updates p))
        /\ Product.id (set_fields updates p) = id
        /\ Store.get s' id = Some (set_fields updates p)
        /\ (forall k, k <> id -> Store.get s' k = Store.get s k)
        /\ map Product.id (Store.rows s') = map Product.id (Store.rows s)
        /\ Store.seq s' = Store.seq s)
  /\ (forall fields,
        apiUpdateProductBody not_null_failed s id (body_of fields)
        = apiUpdateProduct s id fields).
Proof.
  split; [| split; [| split; [| split]]].
  - intros Hf. unfold apiUpdateProductBody. now rewrite Hf.
  - intros Hf Hg. unfold apiUpdateProductBody, run_update.
    rewrite Hf, Hg, StoreFacts.update_get, Z.eqb_refl, Hg. cbn [option_map].
    now rewrite (StoreFacts.update_absent s id _ Hg).
  - intros Hf p Hg Hnull. unfold apiUpdateProductBody, run_update.
    rewrite Hf, Hg. destruct (null_columns body); [congruence | reflexivity].
  - intros Hf p Hg Hnull. cbn zeta.
    unfold apiUpdateProductBody, run_update. rewrite Hf, Hg, Hnull.
    rewrite StoreFacts.update_get, Z.eqb_refl, Hg. cbn [option_map fst snd].
    split; [reflexivity |].
    split; [apply StoreFacts.get_some in Hg as [_ Hid]; exact Hid |].
    split; [rewrite StoreFacts.update_get, Z.eqb_refl, Hg; reflexivity |].
    split; [| split; [apply StoreFacts.update_ids | reflexivity]].
    intros k Hk. rewrite StoreFacts.update_get.
    destruct (Z.eqb_spec k id); [contradiction | reflexivity].
  - intros fields. destruct (body_of_fields fields) as [Hg Hn].
    unfold apiUpdateProductBody, apiUpdateProduct, run_update.
    rewrite <- (no_fields_given_fields _ Hn), Hg, Hn.
    destruct (no_fields fields); [reflexivity |].
    now destruct (Store.get s id).
Qed.

(** X17. The route that deletes a product answers 404 when no row has the
    identifier and leaves the table; else it answers with the row it
    deletes. After it the identifier finds nothing, every other identifier
    finds what it found before, and a second request for the same
    identifier answers 404. *)
Theorem apiDeleteProduct_behaviour (s : Store.t) (id : Z) :
  let s' := fst (apiDeleteProduct s id) in
  (Store.get s id = None ->
   apiDeleteProduct s id = (s, ApiError 404 "Product not found"))
  /\ (forall p, Store.get s id = Some p ->
      apiDeleteProduct s id
      = (Store.delete s id, ApiOk "Product deleted successfully" (Some p))
      /\ Product.id p = id)
  /\ Store.get s' id = None
  /\ (forall k, k <> id -> Store.get s' k = Store.get s k)
  /\ Store.seq s' = Store.seq s
  /\ apiDeleteProduct s' id = (s', ApiError 404 "Product not found").
Proof.
  cbn zeta.
  assert (Hgone : Store.get (fst (apiDeleteProduct s id)) id = None).
  { unfold apiDeleteProduct. destruct (Store.get s id) eqn:E; cbn [fst].
    - now rewrite StoreFacts.delete_get, Z.eqb_refl.
    - exact E. }
  split; [| split; [| split; [exact Hgone | split; [| split]]]].
  - intros Hg. unfold apiDeleteProduct. now rewrite Hg.
  - intros p Hg. unfold apiDeleteProduct. rewrite Hg.
    split; [reflexivity |]. now apply StoreFacts.get_some in Hg.
  - intros k Hk. unfold apiDeleteProduct.
    destruct (Store.get s id); cbn [fst]; [| reflexivity].
    rewrite StoreFacts.delete_get.
    destruct (Z.eqb_spec k id); [contradiction | reflexivity].
  - unfold apiDeleteProduct. now destruct (Store.get s id).
  - unfold apiDeleteProduct at 1. now rewrite Hgone.
Qed.

(** X18. On a well-formed table, adding a product and then deleting it
    gives back the rows there were; the counter stays one higher, so the
    identifier is not given again. *)
Theorem add_then_delete (s : Store.t) (name type category : string)
  (cost sales_per_day : Q) :
  well_formed s ->
  let added := fst (add_product s name type category cost sales_per_day) in
  let deleted := fst (delete_product added (Store.seq added)) in
  Store.seq added = (Store.seq s + 1)%Z
  /\ Store.rows deleted = Store.rows s
  /\ Store.seq deleted = (Store.seq s + 1)%Z.
Proof.
  intros Hwf. cbn zeta. unfold add_product. cbn [fst].
  assert (Hseq : Store.seq
                   (Store.insert s name type category cost sales_per_day)
                 = (Store.seq s + 1)%Z)
    by (unfold Store.insert; cbn [Store.seq]; apply StoreFacts.new_id, Hwf).
  split; [exact Hseq |].
  unfold delete_product. rewrite Hseq.
  rewrite StoreFacts.insert_get, Z.eqb_refl by exact Hwf. cbn [fst].
  unfold Store.delete, Store.insert. cbn [Store.rows Store.seq].
  rewrite (StoreFacts.new_id s Hwf). split; [| reflexivity].
  rewrite filter_app. cbn [filter Product.id]. rewrite Z.eqb_refl.
  cbn [negb]. rewrite app_nil_r.
  destruct Hwf as (_ & Hb & _).
  induction Hb as [| q l Hq _ IH]; [reflexivity |].
  cbn [filter]. destruct (Z.eqb_spec (Product.id q) (Store.seq s + 1));
    [lia |].
  cbn [negb]. now rewrite IH.
Qed.

Lemma write_step (s : Store.t) (w : Write) :
  well_formed s ->
  well_formed (write s w)
  /\ (Store.seq s <= Store.seq (write s w))%Z
  /\ (forall k, (k <= Store.seq s)%Z -> Store.get s k = None ->
      Store.get (write s w) k = None).
Proof.
  intros Hwf. destruct w as [body | id updates | id]; cbn [write].
  - unfold apiAddProduct.
    destruct (falsy (Fields.name body) || falsy (Fields.type body)
              || falsy (Fields.category body) || undefined (Fields.cost body)
              || undefined (Fields.sales_per_day body)); cbn [fst].
    + split; [exact Hwf |]. split; [lia | auto].
    + split; [now apply StoreFacts.insert_well_formed |].
      split.
      * unfold Store.insert. cbn [Store.seq]. lia.
      * intros k Hk Hg. rewrite StoreFacts.insert_get by exact Hwf.
        destruct (Z.eqb_spec k (Store.seq s + 1)); [lia | exact Hg].
  - destruct (no_fields updates) eqn:Hf.
    + unfold apiUpdateProduct. rewrite Hf. cbn [fst].
      split; [exact Hwf |]. split; [lia | auto].
    + rewrite apiUpdateProduct_cases by exact Hf.
      destruct (Store.get s id) as [p |] eqn:Hg; cbn [fst].
      * split; [now apply StoreFacts.update_well_formed |].
        split; [cbn; lia |].
        intros k _ Hk. rewrite StoreFacts.update_get, Hk.
        now destruct (Z.eqb k id).
      * split; [exact Hwf |]. split; [lia | auto].
  - unfold apiDeleteProduct.
    destruct (Store.get s id) as [p |] eqn:Hg; cbn [fst].
    + split; [now apply StoreFacts.delete_well_formed |].
      split; [cbn; lia |].
      intros k _ Hk. rewrite StoreFacts.delete_get, Hk.
      now destruct (Z.eqb k id).
    + split; [exact Hwf |]. split; [lia | auto].
Qed.

(** X19. Whatever requests add, update and delete products, one after
    the other, a well-formed table stays well formed (the identifiers
    ascend along the rows, so no two rows share one), its counter does
    not go down, and an identifier up to the counter that no row has is
    never given to a row again: the identifier of a deleted product is not
    reused. *)
Theorem writes_keep_identifiers (s : Store.t) (ws : list Write) :
  well_formed s ->
  well_formed (writes s ws)
  /\ (Store.seq s <= Store.seq (writes s ws))%Z
  /\ (forall k, (k <= Store.seq s)%Z -> Store.get s k = None ->
      Store.get (writes s ws) k = None).
Proof.
  unfold writes. revert s.
  induction ws as [| w ws IH]; intros s Hwf; cbn [fold_left].
  - split; [exact Hwf |]. split; [lia | auto].
  - destruct (write_step s w Hwf) as (Hwf' & Hseq & Hget).
    destruct (IH (write s w) Hwf') as (Hwf'' & Hseq' & Hget').
    split; [exact Hwf'' |]. split; [lia |].
    intros k Hk Hg. apply Hget'; [lia | now apply Hget].
Qed.

(** ** The tools beside the routes, the first rows, and the page *)

(** X20. The tools and the routes change the table alike: updating and
    deleting always, adding for every body the route accepts. They differ
    on an empty name (or type, or category): the route refuses it and
    leaves the table, the tool inserts the row. *)
Theorem tools_write_as_routes (s : Store.t) :
  (forall name type category cost sales_per_day,
      name <> EmptyString -> type <> EmptyString -> category <> EmptyString ->
      fst (add_product s name type category cost sales_per_day)
      = fst (apiAddProduct s
               (all_fields name type category cost sales_per_day)))
  /\ (forall id updates,
        fst (update_product s id updates)
        = fst (apiUpdateProduct s id updates))
  /\ (forall id, fst (delete_product s id) = fst (apiDeleteProduct s id))
  /\ (forall type category cost sales_per_day,
        fst (apiAddProduct s
               (all_fields EmptyString type category cost sales_per_day))
        = s
        /\ List.length
             (Store.rows
                (fst (add_product s EmptyString type category cost
                        sales_per_day)))
           = S (List.length (Store.rows s))).
Proof.
  split; [| split; [| split]].
  - intros name type category cost sales_per_day Hn Ht Hc.
    now rewrite apiAddProduct_cases.
  - intros id updates. unfold update_product, apiUpdateProduct.
    destruct (no_fields updates); [reflexivity |].
    now destruct (Store.get (store_update s id updates) id).
  - intros id. unfold delete_product, apiDeleteProduct.
    now destruct (Store.get s id).
  - intros type category cost sales_per_day. split; [reflexivity |].
    unfold add_product, Store.insert. cbn [fst Store.rows].
    rewrite length_app. simpl. lia.
Qed.

Lemma fold_insert_rows (l : list Product.t) (s : Store.t) :
  let s' :=
    fold_left
      (fun s product =>
         Store.insert s (Product.name product) (Product.type product)
           (Product.category product) (Product.cost product)
           (Product.sales_per_day product)) l s in
  List.length (Store.rows s')
  = (List.length (Store.rows s) + List.length l)%nat
  /\ (well_formed s -> well_formed s')
  /\ (well_formed s ->
      Store.seq s' = (Store.seq s + Z.of_nat (List.length l))%Z).
Proof.
  cbn zeta. revert s. induction l as [| p l IH]; intros s.
  - cbn [fold_left List.length]. split; [lia |]. split; [auto | intros _; lia].
  - cbn [fold_left].
    destruct (IH (Store.insert s (Product.name p) (Product.type p)
                    (Product.category p) (Product.cost p)
                    (Product.sales_per_day p))) as (Hlen & Hwf & Hseq).
    split; [| split].
    + rewrite Hlen. unfold Store.insert. cbn [Store.rows].
      rewrite length_app. simpl. lia.
    + intros H. now apply Hwf, StoreFacts.insert_well_formed.
    + intros H. rewrite Hseq by now apply StoreFacts.insert_well_formed.
      assert (Hi : Store.seq
                     (Store.insert s (Product.name p) (Product.type p)
                        (Product.category p) (Product.cost p)
                        (Product.sales_per_day p))
                   = (Store.seq s + 1)%Z)
        by (unfold Store.insert; cbn [Store.seq]; now apply StoreFacts.new_id).
      rewrite Hi. cbn [List.length]. lia.
Qed.

Lemma fold_insert_above (l : list Product.t) (s : Store.t) (m : Z) :
  well_formed s -> (m <= Store.seq s)%Z ->
  Forall (fun p => (m < Product.id p)%Z) (Store.rows s) ->
  Forall (fun p => (m < Product.id p)%Z)
    (Store.rows
       (fold_left
          (fun s product =>
             Store.insert s (Product.name product) (Product.type product)
               (Product.category product) (Product.cost product)
               (Product.sales_per_day product)) l s)).
Proof.
  revert s. induction l as [| p l IH]; intros s Hwf Hm Hall; [exact Hall |].
  cbn [fold_left]. apply IH.
  - now apply StoreFacts.insert_well_formed.
  - unfold Store.insert. cbn [Store.seq]. lia.
  - unfold Store.insert. cbn [Store.rows]. apply Forall_app.
    split; [exact Hall |]. constructor; [| constructor].
    cbn [Product.id]. lia.
Qed.

Lemma writes_seed_above (s : Store.t) :
  well_formed s -> Store.rows s = [] ->
  Forall (fun p => (Store.seq s < Product.id p)%Z)
    (Store.rows
       (fold_left
          (fun s product =>
             Store.insert s (Product.name product) (Product.type product)
               (Product.category product) (Product.cost product)
               (Product.sales_per_day product)) sampleProducts s)).
Proof.
  intros Hwf Hs. apply fold_insert_above; [exact Hwf | lia |].
  rewrite Hs. constructor.
Qed.

(** X21. At its start the stdio server fills the table only when it has
    no row: a table with rows is left as it is, so starting twice adds
    nothing. A well-formed table stays well formed. On the empty table
    the six sample products get the identifiers 1 to 6; on a well-formed
    table emptied by deletions they get the six identifiers above the
    counter. *)
Theorem main_fills_empty_table (s : Store.t) :
  (Store.rows s <> [] -> main s = s)
  /\ main (main s) = main s
  /\ (well_formed s -> well_formed (main s))
  /\ Store.rows (main Store.empty) = sampleProducts
  /\ (well_formed s -> Store.rows s = [] ->
      List.length (Store.rows (main s)) = 6%nat
      /\ Store.seq (main s) = (Store.seq s + 6)%Z
      /\ Forall (fun p => (Store.seq s < Product.id p)%Z)
           (Store.rows (main s))).
Proof.
  assert (Hkeep : forall s', Store.rows s' <> [] -> main s' = s').
  { intros s' H. unfold main. destruct (Store.rows s'); [congruence |].
    reflexivity. }
  split; [apply Hkeep |]. split; [| split; [| split; [reflexivity |]]].
  - apply Hkeep. intros E.
    destruct (Store.rows s) as [| p l] eqn:Hs.
    + revert E. unfold main. rewrite Hs. cbn [List.length Nat.eqb].
      destruct (fold_insert_rows sampleProducts s) as (Hlen & _).
      intros E. rewrite E, Hs in Hlen. discriminate.
    + rewrite Hkeep in E by congruence. congruence.
  - intros Hwf. unfold main.
    destruct (Nat.eqb (List.length (Store.rows s)) 0); [| exact Hwf].
    now apply (fold_insert_rows sampleProducts s).
  - intros Hwf Hs. unfold main. rewrite Hs. cbn [List.length Nat.eqb].
    destruct (fold_insert_rows sampleProducts s) as (Hlen & Hwf' & Hseq).
    rewrite Hs in Hlen.
    split; [exact Hlen |]. split; [now apply Hseq |].
    pose proof (writes_seed_above s Hwf Hs) as H. exact H.
Qed.

Lemma apiQuery_trim (db : list Product.t) (input : string) :
  apiQuery db (trim input) = apiQuery db input.
Proof.
  unfold apiQuery, parseSalesQuery. now rewrite normalise_trim.
Qed.

(** X22. The page sends no question of white space only, and sends any
    other question trimmed; the answer is the one the question as typed
    would get, and it is never the error of the empty query. *)
Theorem submitQuestion_never_empty (db : list Product.t) (input : string) :
  match submitQuestion db input with
  | None => blank input = true
  | Some answer =>
      blank input = false
      /\ answer = apiQuery db input
      /\ exists period scope totals items,
          answer = QueryOk period scope totals items
  end.
Proof.
  unfold submitQuestion.
  destruct (trim input) eqn:Et; cbn [truthy negb].
  - now apply trim_empty_iff.
  - rewrite <- Et, apiQuery_trim.
    assert (Hb : blank input = false).
    { destruct (blank input) eqn:Hb; [| reflexivity].
      apply trim_empty_iff in Hb. congruence. }
    split; [exact Hb |]. split; [reflexivity |].
    unfold apiQuery.
    destruct (parseSalesQuery_cases input) as [[Hq _] | [_ Hp]].
    + apply normalise_empty_iff in Hq. congruence.
    + rewrite Hp. unfold computeLineItems. eauto.
Qed.

Lemma filter_by_id (s : Store.t) (k : Z) :
  well_formed s ->
  filter (fun p => Z.eqb (Product.id p) k) (Store.rows s)
  = match Store.get s k with
    | Some p => [p]
    | None => []
    end.
Proof.
  unfold well_formed, Store.get. intros (Hs & _ & _).
  induction Hs as [| p l _ IH Hp]; [reflexivity |].
  cbn [filter find].
  destruct (Z.eqb_spec (Product.id p) k) as [E | _]; [| exact IH].
  f_equal. rewrite Forall_forall in Hp.
  clear IH. induction l as [| q l IHl]; [reflexivity |].
  cbn [filter]. destruct (Z.eqb_spec (Product.id q) k) as [E' | _].
  - specialize (Hp q (or_introl eq_refl)). lia.
  - apply IHl. intros x Hx. apply Hp. now right.
Qed.

(** X23. On a well-formed table the weekly sales of a product id other
    than 0 have the one row of the product with that identifier, or no
    row when there is none, whatever type is asked with it; the totals are
    the weekly sales and the weekly revenue of that product, or 0. The
    product id 0 counts as no product id. *)
Theorem get_weekly_sales_by_id (s : Store.t) (id : Z)
  (type : option string) :
  well_formed s -> id <> 0%Z ->
  let answer := get_weekly_sales (Store.rows s) (Some id) type in
  match Store.get s id with
  | Some p =>
      products answer = [weekly_row p]
      /\ total_weekly_sales answer == Product.sales_per_day p * 7
      /\ total_weekly_revenue answer
         == Product.sales_per_day p * 7 * Product.cost p
  | None =>
      products answer = []
      /\ total_weekly_sales answer == 0
      /\ total_weekly_revenue answer == 0
  end
  /\ get_weekly_sales (Store.rows s) (Some 0%Z) type
     = get_weekly_sales (Store.rows s) None type.
Proof.
  intros Hwf Hid. cbn zeta. split; [| reflexivity].
  unfold get_weekly_sales. apply Z.eqb_neq in Hid. rewrite Hid.
  unfold weekly_sales_rows. rewrite (filter_by_id s id Hwf).
  destruct (Store.get s id) as [p |]; unfold weekly_response;
    cbn [map fold_left products total_weekly_sales total_weekly_revenue
           weekly_row WeeklyRow.weekly_sales WeeklyRow.weekly_revenue].
  - split; [reflexivity |]. split; ring.
  - split; [reflexivity |]. split; reflexivity.
Qed.

(** X24. On a well-formed table a product that was added is in the
    listing without filters, and in the answer to every question whose
    scope stands for it; a product that was deleted is in neither. *)
Theorem listed_after_writes (s : Store.t) :
  well_formed s ->
  (forall name type category cost sales_per_day,
      let s' := fst (add_product s name type category cost sales_per_day) in
      let p :=
        Product.mk (Store.seq s + 1) name type category cost sales_per_day in
      In p (apiProducts (Store.rows s') None None None)
      /\ forall question period scope totals items,
          apiQuery (Store.rows s') question
          = QueryOk period scope totals items ->
          scope_selects scope p = true ->
          exists item,
            In item items
            /\ Item.id item = (Store.seq s + 1)%Z
            /\ Item.name item = name)
  /\ (forall id,
        let s' := fst (delete_product s id) in
        (forall p, In p (apiProducts (Store.rows s') None None None) ->
                   Product.id p <> id)
        /\ forall question period scope totals items,
            apiQuery (Store.rows s') question
            = QueryOk period scope totals items ->
            forall item, In item items -> Item.id item <> id).
Proof.
  intros Hwf. split.
  - intros name type category cost sales_per_day. cbn zeta.
    unfold add_product. cbn [fst].
    assert (Hin : In (Product.mk (Store.seq s + 1) name type category cost
                        sales_per_day)
                    (Store.rows
                       (Store.insert s name type category cost sales_per_day))).
    { unfold Store.insert. cbn [Store.rows].
      rewrite (StoreFacts.new_id s Hwf). apply in_or_app. right. now left. }
    split.
    + unfold apiProducts.
      eapply Permutation_in; [apply select_products_rows |].
      apply filter_In. split; [exact Hin | reflexivity].
    + intros question period scope totals items H Hsel.
      apply apiQuery_rows in H as (_ & rows & Hperm & -> & _).
      exists (Item.mk (Store.seq s + 1) name type category cost
                match period with
                | Week => sales_per_day * 7
                | Day => sales_per_day
                end
                (match period with
                 | Week => sales_per_day * 7
                 | Day => sales_per_day
                 end * cost) period).
      split; [| split; reflexivity].
      unfold results. apply in_map_iff.
      eexists. split; [| eapply Permutation_in; [exact Hperm |];
                         apply filter_In; split; [exact Hin | exact Hsel]].
      reflexivity.
  - intros id. cbn zeta.
    assert (Hgone : forall p,
               In p (Store.rows (fst (delete_product s id))) ->
               Product.id p <> id).
    { apply StoreFacts.get_none. unfold delete_product.
      destruct (Store.get s id) eqn:E; cbn [fst]; [| exact E].
      now rewrite StoreFacts.delete_get, Z.eqb_refl. }
    split.
    + intros p Hp. apply Hgone. unfold apiProducts in Hp.
      eapply Permutation_in in Hp;
        [| apply Permutation_sym, select_products_rows].
      now apply filter_In in Hp.
    + intros question period scope totals items H item Hitem.
      apply apiQuery_rows in H as (_ & rows & Hperm & -> & _).
      unfold results in Hitem. apply in_map_iff in Hitem as (p & <- & Hp).
      cbn [Item.id]. apply Hgone.
      eapply Permutation_in in Hp; [| apply Permutation_sym, Hperm].
      now apply filter_In in Hp.
Qed.

(** ** Instances of the further properties *)

Lemma sampleStore_well_formed : well_formed sampleStore.
Proof.
  unfold well_formed, sampleStore, sampleProducts. cbn [Store.rows Store.seq].
  split; [| split; [| lia]].
  - repeat (constructor; [| repeat (constructor; [cbn [Product.id]; lia |]);
                            constructor]).
    constructor.
  - repeat (constructor; [cbn [Product.id]; lia |]). constructor.
Qed.

Lemma parseSalesQuery_ignores_margins_padded :
  blank "  " = true /\ blank " " = true
  /\ parseSalesQuery ("  " ++ "weekly hair sales" ++ " ")
     = parseSalesQuery "weekly hair sales".
Proof.
  split; [reflexivity |]. split; [reflexivity |].
  apply (proj2 (proj2 (parseSalesQuery_ignores_margins "weekly hair sales")));
    reflexivity.
Defined.

Lemma parseSalesQuery_scope_values_victoria :
  parseSalesQuery "Victoria Secret revenue"
  = Request Day (ByCategory "victoria_secret")
  /\ In "victoria_secret" (map Product.category sampleProducts).
Proof.
  split; [reflexivity |].
  apply (parseSalesQuery_scope_values "Victoria Secret revenue" Day
           (ByCategory "victoria_secret")).
  reflexivity.
Defined.

Lemma parseSalesQuery_week_iff_weekly :
  parseSalesQuery "weekly hair sales" = Request Week (ByType "hair")
  /\ includes (normalise "weekly hair sales") "week" = true.
Proof.
  split; [reflexivity |].
  destruct (parseSalesQuery_week_iff "weekly hair sales" Week (ByType "hair")
              eq_refl) as [_ [H _]].
  apply (H eq_refl).
Defined.

Lemma underscored_no_white_space_gucci :
  every solid "gucci" = true /\ underscored "gucci" = "gucci".
Proof.
  split; [reflexivity |].
  apply (proj2 (underscored_no_white_space "gucci")). reflexivity.
Defined.

Lemma name_filter_is_substring_lotion :
  nul_free "LOTION" = true
  /\ includes (nocase_string (Sql.c_text "Body Lotion Smooth"))
       (nocase_string "LOTION") = true
  /\ Sql.like ("%" ++ "LOTION" ++ "%") "Body Lotion Smooth" = true.
Proof.
  split; [reflexivity |]. split; [reflexivity |].
  apply (proj1 (name_filter_is_substring "LOTION" "Body Lotion Smooth"));
    reflexivity.
Defined.

Lemma apiQuery_selects_scope_hair :
  exists totals items,
    apiQuery sampleProducts "weekly sales for hair"
    = QueryOk Week (ByType "hair") totals items
    /\ List.length items
       = List.length (filter (scope_selects (ByType "hair")) sampleProducts).
Proof.
  eexists. eexists. split; [vm_compute; reflexivity |].
  refine (proj2 (proj2 (proj2 (proj2
            (apiQuery_selects_scope sampleProducts "weekly sales for hair"))
            _ _ _ _ _))).
  vm_compute. reflexivity.
Defined.

Lemma apiQuery_by_name_bloom :
  exists totals items,
    apiQuery sampleProducts "how much bloom today"
    = QueryOk Day (ByNamePattern "bloom") totals items
    /\ nul_free "bloom" = true
    /\ wildcard_free "bloom" = true
    /\ Permutation
         (results
            (filter
               (fun p =>
                  includes (nocase_string (Sql.c_text (Product.name p)))
                    "bloom")
               sampleProducts) Day)
         items.
Proof.
  eexists. eexists. split; [vm_compute; reflexivity |].
  split; [reflexivity |]. split; [reflexivity |].
  eapply (apiQuery_by_name sampleProducts "how much bloom today");
    [vm_compute; reflexivity | reflexivity | reflexivity].
Defined.

Lemma query_and_weekly_sales_agree_hair :
  exists totals items,
    apiQuery sampleProducts "weekly sales for hair"
    = QueryOk Week (ByType "hair") totals items
    /\ Permutation
         (map (fun r => (Item.id r, Item.sales r, Item.revenue r)) items)
         (map (fun r => (WeeklyRow.id r, WeeklyRow.weekly_sales r,
                         WeeklyRow.weekly_revenue r))
            (products (get_weekly_sales sampleProducts None (Some "hair")))).
Proof.
  eexists. eexists. split; [vm_compute; reflexivity |].
  refine (query_and_weekly_sales_agree sampleProducts
            "weekly sales for hair" "hair" _ _ _).
  vm_compute. reflexivity.
Defined.

Lemma apiProducts_filters_hair :
  In (Product.mk 1 "Shampoo Pro" "hair" "shampoo" 12.99 15)
    (apiProducts sampleProducts (Some "PRO") (Some "hair") (Some "")).
Proof.
  destruct (apiProducts_filters sampleProducts (Some "PRO") (Some "hair")
              (Some "")) as (_ & H & _).
  apply H. split; [left; reflexivity |]. split; [| split].
  - intros s' [= <-] _. reflexivity.
  - intros s' [= <-] _. reflexivity.
  - intros s' [= <-] Hne. congruence.
Defined.

Lemma apiAddProduct_validation_free_sample :
  apiAddProductBody (fun _ => "NOT NULL constraint failed") sampleStore
    (Body.mk (Given "Sample") (Given "gift") (Given "free") (Given 0)
       (Given 0))
  = (Store.insert sampleStore "Sample" "gift" "free" 0 0,
     ApiOk "Product added successfully"
       (Some (Product.mk 7 "Sample" "gift" "free" 0 0)))
  /\ apiAddProductBody (fun _ => "NOT NULL constraint failed") sampleStore
       (Body.mk (Given "") (Given "hair") (Given "shampoo") (Given 1)
          (Given 1))
     = (sampleStore,
        ApiError 400
          "Missing required fields: name, type, category, cost, sales_per_day")
  /\ apiAddProductBody (fun _ => "NOT NULL constraint failed") sampleStore
       (Body.mk (Given "Sample") (Given "gift") (Given "free") Null
          (Given 1))
     = (sampleStore, ApiError 500 "NOT NULL constraint failed").
Proof.
  split; [| split].
  - apply (proj1 (proj2 (proj2
             (apiAddProduct_validation (fun _ => "NOT NULL constraint failed")
                sampleStore
                (Body.mk (Given "Sample") (Given "gift") (Given "free")
                   (Given 0) (Given 0))))) "Sample" "gift" "free" 0 0 eq_refl);
      discriminate.
  - apply (proj1
             (apiAddProduct_validation (fun _ => "NOT NULL constraint failed")
                sampleStore
                (Body.mk (Given "") (Given "hair") (Given "shampoo") (Given 1)
                   (Given 1)))).
    right. right. left. reflexivity.
  - apply (proj1 (proj2
             (apiAddProduct_validation (fun _ => "NOT NULL constraint failed")
                sampleStore
                (Body.mk (Given "Sample") (Given "gift") (Given "free") Null
                   (Given 1)))) "Sample" "gift" "free" Null (Given 1) eq_refl);
      try discriminate.
    left. reflexivity.
Defined.

Lemma add_product_round_trip_sample :
  well_formed sampleStore
  /\ Store.get (Store.insert sampleStore "Sample" "gift" "free" 0 0) 7
     = Some (Product.mk 7 "Sample" "gift" "free" 0 0).
Proof.
  split; [exact sampleStore_well_formed |].
  exact (proj1 (proj2 (proj2 (proj2 (proj2
           (add_product_round_trip sampleStore "Sample" "gift" "free" 0 0
              sampleStore_well_formed)))))).
Defined.

Lemma apiUpdateProduct_behaviour_sample :
  apiUpdateProductBody (fun _ => "NOT NULL constraint failed") sampleStore 99
    (Body.mk Undefined Undefined Undefined Null Undefined)
  = (sampleStore, ApiError 404 "Product not found")
  /\ apiUpdateProductBody (fun _ => "NOT NULL constraint failed") sampleStore
       99 (Body.mk Undefined Undefined Undefined Undefined Undefined)
     = (sampleStore, ApiError 400 "No fields to update")
  /\ apiUpdateProductBody (fun _ => "NOT NULL constraint failed") sampleStore
       3 (Body.mk Undefined Undefined Undefined Null Undefined)
     = (sampleStore, ApiError 500 "NOT NULL constraint failed")
  /\ snd (apiUpdateProductBody (fun _ => "NOT NULL constraint failed")
            sampleStore 3
            (Body.mk Undefined Undefined Undefined (Given 79.99) Undefined))
     = ApiOk "Product updated successfully"
         (Some (Product.mk 3 "Gucci Bloom" "perfume" "gucci" 79.99 8)).
Proof.
  split; [| split; [| split]].
  - apply (proj1 (proj2
             (apiUpdateProduct_behaviour
                (fun _ => "NOT NULL constraint failed") sampleStore 99
                (Body.mk Undefined Undefined Undefined Null Undefined))));
      reflexivity.
  - apply (proj1
             (apiUpdateProduct_behaviour
                (fun _ => "NOT NULL constraint failed") sampleStore 99
                (Body.mk Undefined Undefined Undefined Undefined Undefined))).
    reflexivity.
  - apply (proj1 (proj2 (proj2
             (apiUpdateProduct_behaviour
                (fun _ => "NOT NULL constraint failed") sampleStore 3
                (Body.mk Undefined Undefined Undefined Null Undefined))))
             eq_refl
             (Product.mk 3 "Gucci Bloom" "perfume" "gucci" 89.99 8) eq_refl).
    discriminate.
  - apply (proj1 (proj2 (proj2 (proj2
             (apiUpdateProduct_behaviour
                (fun _ => "NOT NULL constraint failed") sampleStore 3
                (Body.mk Undefined Undefined Undefined (Given 79.99)
                   Undefined)))))
             eq_refl
             (Product.mk 3 "Gucci Bloom" "perfume" "gucci" 89.99 8) eq_refl
             eq_refl).
Defined.

Lemma apiDeleteProduct_behaviour_sample :
  apiDeleteProduct sampleStore 99
  = (sampleStore, ApiError 404 "Product not found")
  /\ snd (apiDeleteProduct sampleStore 3)
     = ApiOk "Product deleted successfully"
         (Some (Product.mk 3 "Gucci Bloom" "perfume" "gucci" 89.99 8)).
Proof.
  split.
  - apply (proj1 (apiDeleteProduct_behaviour sampleStore 99)). reflexivity.
  - destruct (proj1 (proj2 (apiDeleteProduct_behaviour sampleStore 3))
                (Product.mk 3 "Gucci Bloom" "perfume" "gucci" 89.99 8)
                eq_refl) as [E _].
    now rewrite E.
Defined.

Lemma add_then_delete_sample :
  well_formed sampleStore
  /\ Store.rows
       (fst (delete_product
               (fst (add_product sampleStore "Sample" "gift" "free" 0 0)) 7))
     = sampleProducts.
Proof.
  split; [exact sampleStore_well_formed |].
  exact (proj1 (proj2 (add_then_delete sampleStore "Sample" "gift" "free" 0 0
                         sampleStore_well_formed))).
Defined.

Lemma writes_keep_identifiers_sample :
  well_formed sampleStore
  /\ Store.get
       (writes sampleStore
          [ DeleteProduct 3;
            AddProduct (all_fields "Sample" "gift" "free" 0 0);
            UpdateProduct 7 (Fields.mk (Some "Gift") None None None None) ])
       7
     = Some (Product.mk 7 "Gift" "gift" "free" 0 0)
  /\ Store.get
       (writes (Store.delete sampleStore 3)
          [ AddProduct (all_fields "Sample" "gift" "free" 0 0);
            UpdateProduct 7 (Fields.mk (Some "Gift") None None None None) ])
       3
     = None.
Proof.
  split; [exact sampleStore_well_formed |]. split; [reflexivity |].
  apply (proj2 (proj2
           (writes_keep_identifiers (Store.delete sampleStore 3) _
              (StoreFacts.delete_well_formed _ 3 sampleStore_well_formed)))).
  - cbn. lia.
  - reflexivity.
Defined.

Lemma tools_write_as_routes_sample :
  fst (add_product sampleStore "Sample" "gift" "free" 0 0)
  = fst (apiAddProduct sampleStore (all_fields "Sample" "gift" "free" 0 0)).
Proof.
  apply (proj1 (tools_write_as_routes sampleStore)); discriminate.
Defined.

Lemma main_fills_empty_table_twice :
  Store.rows sampleStore <> [] /\ main sampleStore = sampleStore
  /\ main Store.empty = sampleStore.
Proof.
  split; [discriminate |]. split; [| reflexivity].
  apply (proj1 (main_fills_empty_table sampleStore)). discriminate.
Defined.

Lemma get_weekly_sales_by_id_sample :
  well_formed sampleStore
  /\ products (get_weekly_sales sampleProducts (Some 3%Z) (Some "hair"))
     = [weekly_row (Product.mk 3 "Gucci Bloom" "perfume" "gucci" 89.99 8)].
Proof.
  split; [exact sampleStore_well_formed |].
  pose proof (get_weekly_sales_by_id sampleStore 3 (Some "hair")
                sampleStore_well_formed) as H.
  cbn zeta in H. destruct H as [H _]; [discriminate |].
  exact (proj1 H).
Defined.

Lemma listed_after_writes_sample :
  well_formed sampleStore
  /\ In (Product.mk 7 "Sample" "gift" "free" 0 0)
       (apiProducts
          (Store.rows (fst (add_product sampleStore "Sample" "gift" "free" 0 0)))
          None None None).
Proof.
  split; [exact sampleStore_well_formed |].
  exact (proj1 (proj1 (listed_after_writes sampleStore sampleStore_well_formed)
                  "Sample" "gift" "free" 0 0)).
Defined.
